(** * objclient: a unified object-storage client (S3 / OSS) and its
    stall-watchdog reader.

    A shallow embedding of the Go package [objclient]:
    - [objclient.go]: [stringToBool], [WriteOptions], [ObjectItem],
      [ObjectInfo] and the [TimeoutReader];
    - [s3.go]: the adapter over the minio SDK;
    - [oss.go]: the adapter over the aliyun OSS SDK.

    The vendor SDKs are outside the package.  They are modelled as
    records of response functions (what the SDK answers to a request), and
    every request an adapter issues is appended to a log, so that "no
    backend call was made" is the statement that the log is empty. *)

From Stdlib Require Import ZArith String Ascii List Bool Lia.
From stdpp Require Import gmap strings list fin_maps.

Local Open Scope string_scope.
Local Open Scope Z_scope.

(** ** Go values *)

(** Go's [error] values, as far as the package builds or inspects them. *)
Inductive error : Type :=
| errorString (s : string)
    (* errors.New(s), and any opaque error of an SDK *)
| wrapError (msg : string) (err : error)
    (* fmt.Errorf("... %w", err): [msg] is the formatted text *)
| ErrorResponse (StatusCode : Z) (Message : string).
    (* minio.ErrorResponse *)

(** [err.Error()] *)
Definition Error (e : error) : string :=
  match e with
  | errorString s => s
  | wrapError msg _ => msg
  | ErrorResponse _ m => m
  end.

(** [errors.New] *)
Definition errors_New (s : string) : error := errorString s.

(** [fmt.Errorf(prefix + "%w", err)]: the text is the prefix followed by
    the text of the wrapped error. *)
Definition fmt_Errorf_w (prefix : string) (err : error) : error :=
  wrapError (prefix ++ Error err) err.

(** [errors.Unwrap] *)
Definition Unwrap (e : error) : option error :=
  match e with
  | wrapError _ inner => Some inner
  | _ => None
  end.

(** [minio.ToErrorResponse(err).StatusCode]: a type switch on the dynamic
    type of [err]; everything that is not an [ErrorResponse] (also [nil])
    gives the zero value. *)
Definition ToErrorResponse_StatusCode (err : option error) : Z :=
  match err with
  | Some (ErrorResponse sc _) => sc
  | _ => 0
  end.

Definition http_StatusNotFound : Z := 404.

(** The range of [int64]. *)
Definition in_int64 (z : Z) : Prop := - 2 ^ 63 <= z < 2 ^ 63.

(** [int64] arithmetic wraps around. *)
Definition wrap64 (z : Z) : Z := (z + 2 ^ 63) mod 2 ^ 64 - 2 ^ 63.

(** [strings.ToLower] on the ASCII letters; the bytes of other characters
    are left as they are.  This is the path that Go takes for a string
    whose bytes are all below [utf8.RuneSelf] (0x80); on other strings Go
    maps [unicode.ToLower] over the runes, which is not modelled, and the
    properties of lower-cased keys are stated for ASCII keys only. *)
Definition lower_ascii (c : ascii) : ascii :=
  let n := nat_of_ascii c in
  if (Nat.leb 65 n && Nat.leb n 90)%bool then ascii_of_nat (n + 32) else c.

Fixpoint strings_ToLower (s : string) : string :=
  match s with
  | EmptyString => EmptyString
  | String c s' => String (lower_ascii c) (strings_ToLower s')
  end.

(** [strings.Contains(s, sub)] *)
Fixpoint strings_Contains (s sub : string) : bool :=
  String.prefix sub s ||
  match s with
  | EmptyString => false
  | String _ s' => strings_Contains s' sub
  end.

(** ** objclient.go *)

Record WriteOptions : Type := {
  Size : Z;                          (* int64 *)
  Metadata : gmap string string
}.

Record ObjectItem : Type := {
  item_Key : string;
  item_Size : Z;
  item_LastModified : Z
}.

Record ObjectInfo : Type := {
  info_Size : Z;
  info_LastModified : Z;
  info_Metadata : gmap string string
}.

Definition stringToBool (s : string) (defaults : bool) : bool :=
  if defaults then negb (String.eqb s "false") else String.eqb s "true".

(** *** TimeoutReader

    The reader is shared between the goroutine that reads and closes it
    and the goroutine running [timer].  The shared fields are the two
    atomics; the model adds two counters that record how often the
    cancel function and the auxiliary closer have been invoked. *)
Module TimeoutReader.

(** [c io.Closer]: what [c.Close()] returns at its n-th call. *)
Definition Closer : Type := nat -> option error.

Record t : Type := mk {
  c : option Closer;      (* nil or the auxiliary closer *)
  readed : Z;             (* atomic.Int64 *)
  closed : bool;          (* atomic.Bool *)
  cancels : nat;          (* invocations of reader.cancel so far *)
  c_closes : nat          (* invocations of reader.c.Close so far *)
}.

Definition time_Second : Z := 1000000000.

(** [time.NewTicker(30 * time.Second)] *)
Definition ticker_period : Z := 30 * time_Second.

(** [newTimeoutReader(r, c, cancel)]; the timer goroutine starts in
    state [Running]. *)
Definition newTimeoutReader (c : option Closer) : t :=
  mk c 0 false 0%nat 0%nat.

(** [reader.Read(data)], where [(n, err)] is what [reader.r.Read(data)]
    returned. *)
Definition Read (rd : t) (res : Z * option error) : (Z * option error) * t :=
  let '(n, err) := res in
  ((n, err),
   mk (c rd) (wrap64 (readed rd + n)) (closed rd) (cancels rd) (c_closes rd)).

(** [reader.Close()] *)
Definition Close (rd : t) : option error * t :=
  let rd1 := mk (c rd) (readed rd) true (cancels rd) (c_closes rd) in
  let rd2 := mk (c rd1) (readed rd1) (closed rd1) (S (cancels rd1)) (c_closes rd1) in
  let rd3 :=
    match c rd2 with
    | Some cl =>
        let _ := cl (c_closes rd2) in      (* the result is dropped *)
        mk (c rd2) (readed rd2) (closed rd2) (cancels rd2) (S (c_closes rd2))
    | None => rd2
    end in
  (None, rd3).

(** The reader after [n] successive calls of [Close]. *)
Fixpoint Close_times (n : nat) (rd : t) : t :=
  match n with
  | O => rd
  | S n' => snd (Close (Close_times n' rd))
  end.

(** The timer goroutine is either still in its loop or has left it
    through one of the two [return]s. *)
Inductive timer_state : Type :=
| Running            (* blocked on <-ticker.C *)
| ReturnedClosed     (* left at "if reader.closed.Load() { return }" *)
| ReturnedCancel.    (* left after "reader.cancel()" *)

(** [readed := reader.readed.Swap(0); if readed == 0 { cancel; return }] *)
Definition timer_swap (rd : t) : timer_state * t :=
  let old := readed rd in
  let rd' := mk (c rd) 0 (closed rd) (cancels rd) (c_closes rd) in
  if old =? 0
  then (ReturnedCancel,
        mk (c rd') (readed rd') (closed rd') (S (cancels rd')) (c_closes rd'))
  else (Running, rd').

(** One iteration of the loop of [timer], run when the ticker fires,
    with nothing else touching the reader in between. *)
Definition timer_tick (rd : t) : timer_state * t :=
  if closed rd then (ReturnedClosed, rd) else timer_swap rd.

(** What the other goroutine does to the reader. *)
Inductive action : Type :=
| ActRead (n : Z) (err : option error)
| ActClose.

Definition act (rd : t) (a : action) : t :=
  match a with
  | ActRead n err => snd (Read rd (n, err))
  | ActClose => snd (Close rd)
  end.

Definition acts (rd : t) (l : list action) : t := fold_left act l rd.

(** One period of the ticker: the actions that happen [before] the
    ticker fires, and those that slip in [between] the timer's load of
    [closed] and its swap of [readed] (two separate atomic accesses). *)
Record interval : Type := {
  before : list action;
  between : list action
}.

Definition run_interval (s : timer_state * t) (iv : interval)
  : timer_state * t :=
  let '(ts, rd) := s in
  let rd1 := acts rd (before iv) in
  let rd2 := acts rd1 (between iv) in
  match ts with
  | Running => if closed rd1 then (ReturnedClosed, rd2) else timer_swap rd2
  | _ => (ts, rd2)
  end.

Definition run (s : timer_state * t) (sched : list interval)
  : timer_state * t :=
  fold_left run_interval sched s.

(** Bytes reported by the reads among some actions. *)
Definition bytes_of (a : action) : Z :=
  match a with
  | ActRead n _ => n
  | ActClose => 0
  end.

Definition bytes_read (l : list action) : Z :=
  fold_right (fun a acc => bytes_of a + acc) 0 l.

Definition is_close (a : action) : bool :=
  match a with
  | ActClose => true
  | ActRead _ _ => false
  end.

End TimeoutReader.

(** ** The SDK boundary

    Values exchanged with the minio and the OSS SDK, the requests the
    adapters issue, and what the SDKs answer. *)

(** [encrypt.ServerSide]; the nil interface is [None]. *)
Inductive ServerSide : Type := SSEC (key : string).

Inductive Credentials : Type :=
| NewStaticV2 (id secret token : string)
| NewStaticV4 (id secret token : string).

Inductive BucketLookupType : Type := BucketLookupDNS | BucketLookupPath.

Record minio_Options : Type := {
  opt_Region : string;
  opt_Creds : Credentials;
  opt_Secure : bool;
  opt_BucketLookup : BucketLookupType
}.

Record PutObjectOptions : Type := {
  put_ServerSideEncryption : option ServerSide;
  put_UserMetadata : gmap string string       (* a nil map is the empty map *)
}.

(** [minio.ObjectInfo], also the element type of the channel returned by
    [ListObjects]. *)
Record minio_ObjectInfo : Type := {
  obj_Key : string;
  obj_Size : Z;
  obj_LastModified : Z;
  obj_UserMetadata : gmap string string;
  obj_Err : option error
}.

(** [minio.RemoveObjectError] *)
Record RemoveObjectError : Type := {
  ObjectName : string;
  Err : error
}.

(** [oss.Option] values built by the adapter. *)
Inductive oss_Option : Type :=
| oss_WithContext
| oss_Meta (key value : string)
| oss_Prefix (prefix : string)
| oss_MaxKeys (n : Z)
| oss_ContinuationToken (token : string).

(** [oss.ObjectProperties] *)
Record oss_ObjectProperties : Type := {
  prop_Key : string;
  prop_Size : Z;
  prop_LastModified : Z
}.

(** [oss.ListObjectsResultV2] *)
Record ListObjectsResultV2 : Type := {
  Objects : list oss_ObjectProperties;
  IsTruncated : bool;
  NextContinuationToken : string
}.

(** The requests that leave the package, in the order they are issued. *)
Inductive call : Type :=
| call_NewSSEC (key : string)
| call_minio_New (endpoint : string) (o : minio_Options)
| call_WithCancel
| call_newTimeoutReader (has_closer : bool)
| call_reader_Close
| call_PutObject (bucket key : string) (size : Z) (o : PutObjectOptions)
| call_StatObject (bucket key : string) (sse : option ServerSide)
| call_RemoveObjects (bucket : string) (keys : list string)
| call_ListObjects (bucket prefix : string) (recursive : bool)
| call_WithTimeout
| call_oss_PutObject (key : string) (o : list oss_Option)
| call_oss_IsObjectExist (key : string)
| call_oss_DeleteObjects (keys : list string)
| call_oss_ListObjectsV2 (o : list oss_Option).

(** [*minio.Client]: the answers of the backend. *)
Record minio_Client : Type := {
  PutObject : string -> string -> Z -> PutObjectOptions -> option error;
  StatObject : string -> string -> option ServerSide
               -> minio_ObjectInfo * option error;
  RemoveObjects : string -> list string -> list RemoveObjectError;
  ListObjects : string -> string -> bool -> list minio_ObjectInfo
}.

(** [*oss.Bucket]: the answers of the backend. *)
Record oss_Bucket : Type := {
  oss_PutObject : string -> list oss_Option -> option error;
  oss_IsObjectExist : string -> bool * option error;
  oss_DeleteObjects : list string -> option error;
  oss_ListObjectsV2 : list oss_Option -> ListObjectsResultV2 + error
}.

(** The package-level constructors of the minio SDK. *)
Record minio_SDK : Type := {
  encrypt_NewSSEC : string -> ServerSide + error;
  minio_New : string -> minio_Options -> minio_Client + error
}.

(** A computation returns a value and the requests it issued. *)
Definition M (A : Type) : Type := (A * list call)%type.

Definition ret {A : Type} (a : A) : M A := (a, []).

Definition bind {A B : Type} (m : M A) (k : A -> M B) : M B :=
  let '(a, l1) := m in
  let '(b, l2) := k a in
  (b, (l1 ++ l2)%list).

Definition emit (c : call) : M unit := (tt, [c]).

Declare Scope go_scope.
Delimit Scope go_scope with go.
Notation "x <- m ;; k" := (bind m (fun x => k))
  (at level 100, m at next level, right associativity) : go_scope.
Notation "m ;;; k" := (bind m (fun _ => k))
  (at level 100, right associativity) : go_scope.

(** ** s3.go *)

Record S3Config : Type := {
  Endpoint : string;
  Region : string;
  HTTPS : string;
  Bucket : string;
  PathStyleRequest : string;
  KeyID : string;
  Key : string;
  V4Signature : string;
  SSECKey : string
}.

Module S3Client.

Record t : Type := mk {
  backend : minio_Client;
  bucket : string;
  sseckey : option ServerSide
}.

(** The loop of [Write] that fills a fresh map with the lower-cased
    keys. *)
Definition lowered (md : gmap string string) : gmap string string :=
  map_fold (fun key val um => <[strings_ToLower key := val]> um) ∅ md.

(** [client.Write(ctx, key, r, o)]; [o = None] is the nil pointer.  The
    stream [r] is only handed on, wrapped in the watchdog reader, to the
    upload, whose answer is the backend's. *)
Definition Write (client : t) (key : string) (o : option WriteOptions)
  : M (option error) :=
  (match o with
   | None => ret (Some (errors_New "the size option must be specified"))
   | Some o =>
     if Size o =? 0
     then ret (Some (errors_New "the size option must be specified"))
     else
       emit call_WithCancel ;;;
       emit (call_newTimeoutReader false) ;;;
       let sse := match sseckey client with
                  | Some k => Some k
                  | None => None
                  end in
       let um : gmap string string := ∅ in
       let um :=
         if (0 <? Z.of_nat (size (Metadata o)))
         then
           let um := lowered (Metadata o) in
           let um := Metadata o in      (* opts.UserMetadata = o.Metadata *)
           um
         else um in
       let opts := {| put_ServerSideEncryption := sse;
                      put_UserMetadata := um |} in
       emit (call_PutObject (bucket client) key (Size o) opts) ;;;
       let err := PutObject (backend client) (bucket client) key (Size o) opts in
       emit call_reader_Close ;;;               (* defer reader.Close() *)
       match err with
       | Some e => ret (Some e)
       | None => ret None
       end
   end)%go.

(** [client.Exist(ctx, key)] *)
Definition Exist (client : t) (key : string) : M (bool * option error) :=
  (let opts := sseckey client in
   emit (call_StatObject (bucket client) key opts) ;;;
   let '(_, err) := StatObject (backend client) (bucket client) key opts in
   if ToErrorResponse_StatusCode err =? http_StatusNotFound
   then ret (false, None)
   else match err with
        | Some e => ret (false, Some e)
        | None => ret (true, None)
        end)%go.

(** [client.Remove(ctx, keys...)] *)
Definition Remove (client : t) (keys : list string) : M (option error) :=
  (if (length keys =? 0)%nat
   then ret None
   else
     let objs := keys in                 (* a channel of ObjectInfo{Key: key} *)
     emit (call_RemoveObjects (bucket client) objs) ;;;
     let errs := RemoveObjects (backend client) (bucket client) objs in
     let err :=
       fold_left
         (fun (err : option error) e =>
            match err with
            | None =>
                Some (fmt_Errorf_w
                        ("failed to remove " ++ ObjectName e ++ ": ") (Err e))
            | Some _ => err
            end)
         errs None in
     ret err)%go.

Definition to_item (obj : minio_ObjectInfo) : ObjectItem :=
  {| item_Key := obj_Key obj;
     item_Size := obj_Size obj;
     item_LastModified := obj_LastModified obj |}.

(** The body of the loop of [List] over the channel of objects. *)
Definition List_step (acc : list ObjectItem * option error)
  (obj : minio_ObjectInfo) : list ObjectItem * option error :=
  let '(items, err) := acc in
  match obj_Err obj with
  | Some e => (items, Some e)                      (* err = obj.Err; continue *)
  | None => ((items ++ [to_item obj])%list, err)
  end.

(** [client.List(ctx, prefix)] *)
Definition List (client : t) (prefix : string)
  : M (list ObjectItem * option error) :=
  (emit (call_ListObjects (bucket client) prefix true) ;;;
   let objs := ListObjects (backend client) (bucket client) prefix true in
   let '(items, err) := fold_left List_step objs ([], None) in
   match err with
   | Some e => ret ([], Some e)
   | None => ret (items, None)
   end)%go.

(** [client.Info(ctx, key)] *)
Definition Info (client : t) (key : string)
  : M (option ObjectInfo * option error) :=
  (let opts := sseckey client in
   emit (call_StatObject (bucket client) key opts) ;;;
   let '(stat, err) := StatObject (backend client) (bucket client) key opts in
   match err with
   | Some e => ret (None, Some e)
   | None =>
       let md :=
         map_fold (fun key val m => <[strings_ToLower key := val]> m)
                  (∅ : gmap string string) (obj_UserMetadata stat) in
       ret (Some {| info_Size := obj_Size stat;
                    info_LastModified := obj_LastModified stat;
                    info_Metadata := md |}, None)
   end)%go.

End S3Client.

Definition NewS3Client (sdk : minio_SDK) (config : S3Config)
  : M (S3Client.t + error) :=
  (let v4Signature := stringToBool (V4Signature config) false in
   let region := Region config in
   let region :=
     if v4Signature && String.eqb region "" then "us-east-1" else region in
   let endpoint := Endpoint config in
   let endpoint :=
     if String.eqb endpoint ""
     then if negb (String.eqb region "")
          then "s3." ++ region ++ ".amazonaws.com"
          else "s3.amazonaws.com"
     else endpoint in
   let creds := NewStaticV2 (KeyID config) (Key config) "" in
   let creds :=
     if v4Signature then NewStaticV4 (KeyID config) (Key config) "" else creds in
   let https := stringToBool (HTTPS config) true in
   let lookup :=
     if stringToBool (PathStyleRequest config) false
     then BucketLookupPath else BucketLookupDNS in
   sse <- (if negb (String.eqb (SSECKey config) "")
           then
             if negb (String.length (SSECKey config) =? 32)%nat
             then ret (inr (errors_New "length of SSE-C key must be 32 bytes"))
             else if negb v4Signature
             then ret (inr (errors_New "SSE-C key requires v4 signature"))
             else if negb https
             then ret (inr (errors_New "SSE-C key requires https"))
             else
               emit (call_NewSSEC (SSECKey config)) ;;;
               match encrypt_NewSSEC sdk (SSECKey config) with
               | inr err =>
                   ret (inr (fmt_Errorf_w "failed to load SSE-C key: " err))
               | inl key => ret (inl (Some key))
               end
           else ret (inl None)) ;;
   match sse with
   | inr err => ret (inr err)
   | inl sseckey =>
       let opts := {| opt_Region := region; opt_Creds := creds;
                      opt_Secure := https; opt_BucketLookup := lookup |} in
       emit (call_minio_New endpoint opts) ;;;
       match minio_New sdk endpoint opts with
       | inr err => ret (inr (fmt_Errorf_w "failed to create s3 client: " err))
       | inl backend =>
           ret (inl (S3Client.mk backend (Bucket config) sseckey))
       end
   end)%go.

(** ** oss.go *)

Module OSSClient.

Record t : Type := mk {
  bucket : oss_Bucket
}.

(** [client.Write(ctx, key, r, o)].  Go ranges over a map in an
    unspecified order; the model takes the order of [map_to_list]. *)
Definition Write (client : t) (key : string) (o : option WriteOptions)
  : M (option error) :=
  (let opts : list oss_Option := [] in
   let opts := (opts ++ [oss_WithContext])%list in
   let opts :=
     match o with
     | Some o =>
         if (0 <? Z.of_nat (size (Metadata o)))
         then
           fold_left
             (fun (opts : list oss_Option) (kv : string * string) =>
                let '(key, val) := kv in
                let key := strings_ToLower key in
                (opts ++ [oss_Meta key val])%list)
             (map_to_list (Metadata o)) opts
         else opts
     | None => opts
     end in
   emit (call_oss_PutObject key opts) ;;;
   ret (oss_PutObject (bucket client) key opts))%go.

(** [client.Exist(ctx, key)] *)
Definition Exist (client : t) (key : string) : M (bool * option error) :=
  (emit call_WithTimeout ;;;
   emit (call_oss_IsObjectExist key) ;;;
   ret (oss_IsObjectExist (bucket client) key))%go.

(** [client.Remove(ctx, keys...)] *)
Definition Remove (client : t) (keys : list string) : M (option error) :=
  (if (length keys =? 0)%nat
   then ret None
   else
     emit call_WithTimeout ;;;
     emit (call_oss_DeleteObjects keys) ;;;
     let err := oss_DeleteObjects (bucket client) keys in
     ret err)%go.

Definition to_item (obj : oss_ObjectProperties) : ObjectItem :=
  {| item_Key := prop_Key obj;
     item_Size := prop_Size obj;
     item_LastModified := prop_LastModified obj |}.

(** The [for] loop of [List]: [fuel] bounds the number of iterations,
    and [None] means the bound was reached before the provider
    reported a page that is not truncated. *)
Fixpoint List_loop (fuel : nat) (client : t) (opts : list oss_Option)
  (items : list ObjectItem) (token : string)
  : M (option (list ObjectItem * option error)) :=
  match fuel with
  | O => ret None
  | S fuel' =>
    (let o := (opts ++ [oss_ContinuationToken token])%list in
     emit (call_oss_ListObjectsV2 o) ;;;
     match oss_ListObjectsV2 (bucket client) o with
     | inr err => ret (Some ([], Some err))
     | inl list_ =>
         let items :=
           fold_left (fun (items : list ObjectItem) obj =>
                        (items ++ [to_item obj])%list)
                     (Objects list_) items in
         if negb (IsTruncated list_)
         then ret (Some (items, None))
         else List_loop fuel' client opts items (NextContinuationToken list_)
     end)%go
  end.

Definition List_opts (prefix : string) : list oss_Option :=
  let opts : list oss_Option := [] in
  let opts := (opts ++ [oss_WithContext])%list in
  let opts := (opts ++ [oss_Prefix prefix])%list in
  let opts := (opts ++ [oss_MaxKeys 1000])%list in
  opts.

(** [client.List(ctx, prefix)] *)
Definition List (fuel : nat) (client : t) (prefix : string)
  : M (option (list ObjectItem * option error)) :=
  List_loop fuel client (List_opts prefix) [] "".

(** What the provider serves, seen from outside the adapter: the pages
    reached from [token] by following the continuation tokens, up to
    the first page that is not truncated or the first error.  [None]
    when more than [fuel] requests would be needed. *)
Fixpoint served (fuel : nat) (b : oss_Bucket) (opts : list oss_Option)
  (token : string) : option (list ListObjectsResultV2 * option error) :=
  match fuel with
  | O => None
  | S fuel' =>
      match oss_ListObjectsV2 b (opts ++ [oss_ContinuationToken token])%list with
      | inr err => Some ([], Some err)
      | inl page =>
          if IsTruncated page
          then match served fuel' b opts (NextContinuationToken page) with
               | Some (pages, e) => Some (page :: pages, e)
               | None => None
               end
          else Some ([page], None)
      end
  end.

(** The requests that fetch a sequence of pages, starting at [token]. *)
Fixpoint requests (opts : list oss_Option) (token : string)
  (pages : list ListObjectsResultV2) : list call :=
  match pages with
  | [] => []
  | page :: pages' =>
      call_oss_ListObjectsV2 (opts ++ [oss_ContinuationToken token])%list
      :: requests opts (NextContinuationToken page) pages'
  end.

Definition items_of (pages : list ListObjectsResultV2) : list ObjectItem :=
  concat (map (fun page => map to_item (Objects page)) pages).

End OSSClient.

(** ** What a removal error should tell

    The error of a failed removal names one of the keys and carries the
    cause: it wraps the cause, and its text contains the key and the text
    of the cause. *)
Definition names_key_and_cause (keys : list string) (e : error) : Prop :=
  exists k cause,
    In k keys /\ Unwrap e = Some cause /\
    strings_Contains (Error e) k = true /\
    strings_Contains (Error e) (Error cause) = true.

(** ** Sample inputs

    Backends with fixed answers, used to run the adapters on concrete
    inputs. *)

Definition no_stat : minio_ObjectInfo :=
  {| obj_Key := ""; obj_Size := 0; obj_LastModified := 0;
     obj_UserMetadata := ∅; obj_Err := None |}.

Definition minio_with (put stat : option error)
  (removed : list RemoveObjectError) (listed : list minio_ObjectInfo)
  : minio_Client :=
  {| PutObject := fun _ _ _ _ => put;
     StatObject := fun _ _ _ => (no_stat, stat);
     RemoveObjects := fun _ _ => removed;
     ListObjects := fun _ _ _ => listed |}.

Definition s3_with (put stat : option error)
  (removed : list RemoveObjectError) (listed : list minio_ObjectInfo)
  : S3Client.t :=
  S3Client.mk (minio_with put stat removed listed) "bucket" None.

Definition ssec_sdk : minio_SDK :=
  {| encrypt_NewSSEC := fun key => inl (SSEC key);
     minio_New := fun _ _ => inl (minio_with None None [] []) |}.

Definition ssec_config (key v4 https : string) : S3Config :=
  {| Endpoint := ""; Region := ""; HTTPS := https; Bucket := "b";
     PathStyleRequest := ""; KeyID := "id"; Key := "secret";
     V4Signature := v4; SSECKey := key |}.

(** The continuation token of a listing request. *)
Definition token_of (o : list oss_Option) : string :=
  match last o with
  | Some (oss_ContinuationToken t) => t
  | _ => ""
  end.

Definition oss_with (exist : bool * option error) (deleted : option error)
  (pages : string -> ListObjectsResultV2 + error) : OSSClient.t :=
  OSSClient.mk
    {| oss_PutObject := fun _ _ => None;
       oss_IsObjectExist := fun _ => exist;
       oss_DeleteObjects := fun _ => deleted;
       oss_ListObjectsV2 := fun o => pages (token_of o) |}.

Definition obj (key : string) (size : Z) : oss_ObjectProperties :=
  {| prop_Key := key; prop_Size := size; prop_LastModified := 0 |}.

(** Three objects served in two pages, the second reached through the
    token "t1". *)
Definition two_pages (token : string) : ListObjectsResultV2 + error :=
  if String.eqb token ""
  then inl {| Objects := [obj "p/a" 1; obj "p/b" 2];
              IsTruncated := true; NextContinuationToken := "t1" |}
  else if String.eqb token "t1"
  then inl {| Objects := [obj "p/c" 3];
              IsTruncated := false; NextContinuationToken := "" |}
  else inr (errorString "InvalidArgument").

(** A first page, and then an error. *)
Definition broken_pages (token : string) : ListObjectsResultV2 + error :=
  if String.eqb token ""
  then inl {| Objects := [obj "p/a" 1; obj "p/b" 2];
              IsTruncated := true; NextContinuationToken := "t1" |}
  else inr (errorString "connection reset").

(** ** The rest of the package

    The operations that stream or copy an object, the OSS constructor and
    the OSS [Info], with the SDK methods they use. *)

(** [strings.HasPrefix(s, prefix)] *)
Definition strings_HasPrefix (s prefix : string) : bool := String.prefix prefix s.

Fixpoint string_drop (n : nat) (s : string) : string :=
  match n, s with
  | O, _ => s
  | S _, EmptyString => EmptyString
  | S n', String _ s' => string_drop n' s'
  end.

(** [strings.TrimPrefix(s, prefix)] *)
Definition strings_TrimPrefix (s prefix : string) : string :=
  if strings_HasPrefix s prefix then string_drop (String.length prefix) s else s.

(** A string that [strings.ToLower] leaves as it is. *)
Definition is_lower (s : string) : Prop := strings_ToLower s = s.

(** A string whose bytes are all below [utf8.RuneSelf]: the strings on
    which [strings_ToLower] is Go's [strings.ToLower]. *)
Fixpoint is_ASCII (s : string) : bool :=
  match s with
  | EmptyString => true
  | String ch s' => (nat_of_ascii ch <? 128)%nat && is_ASCII s'
  end.

(** The metadata key that the OSS [Info] makes of a header key. *)
Definition meta_key (hk : string) : string :=
  strings_ToLower (strings_TrimPrefix hk "X-Oss-Meta-").

(** [minio.CopySrcOptions] and [minio.CopyDestOptions] *)
Record CopySrcOptions : Type := {
  src_Bucket : string;
  src_Object : string;
  src_Encryption : option ServerSide
}.

Record CopyDestOptions : Type := {
  dst_Bucket : string;
  dst_Object : string;
  dst_Encryption : option ServerSide
}.

(** The methods of [*minio.Client] behind [Read] and [Copy].  A
    [*minio.Object] is seen through what its [Close] returns. *)
Record minio_Objects : Type := {
  GetObject : string -> string -> option ServerSide
              -> TimeoutReader.Closer + error;
  CopyObject : CopyDestOptions -> CopySrcOptions -> option error
}.

(** [http.Header] *)
Abbreviation http_Header := (gmap string (list string)).

(** The requests of these operations. *)
Inductive io_call : Type :=
| io_logged (c : call)
| call_GetObject (bucket key : string) (sse : option ServerSide)
| call_cancel
| call_CopyObject (dst : CopyDestOptions) (src : CopySrcOptions)
| call_oss_New (endpoint id key : string)
| call_oss_Bucket (name : string)
| call_oss_GetObjectDetailedMeta (key : string).

(** [client.Read(ctx, key)] of the S3 adapter. *)
Definition S3Client_Read (objects : minio_Objects) (client : S3Client.t)
  (key : string) : (TimeoutReader.t + error) * list io_call :=
  let opts := match S3Client.sseckey client with
              | Some k => Some k
              | None => None
              end in
  match GetObject objects (S3Client.bucket client) key opts with
  | inr err =>
      (inr err,
       [io_logged call_WithCancel;
        call_GetObject (S3Client.bucket client) key opts;
        call_cancel])
  | inl obj =>
      let r := TimeoutReader.newTimeoutReader (Some obj) in
      (inl r,
       [io_logged call_WithCancel;
        call_GetObject (S3Client.bucket client) key opts;
        io_logged (call_newTimeoutReader true)])
  end.

(** [client.Copy(ctx, src, dst)] of the S3 adapter. *)
Definition S3Client_Copy (objects : minio_Objects) (client : S3Client.t)
  (src dst : string) : option error * list io_call :=
  let srcOpts := {| src_Bucket := S3Client.bucket client;
                    src_Object := src; src_Encryption := None |} in
  let dstOpts := {| dst_Bucket := S3Client.bucket client;
                    dst_Object := dst; dst_Encryption := None |} in
  let '(srcOpts, dstOpts) :=
    match S3Client.sseckey client with
    | Some k =>
        ({| src_Bucket := src_Bucket srcOpts; src_Object := src_Object srcOpts;
            src_Encryption := Some k |},
         {| dst_Bucket := dst_Bucket dstOpts; dst_Object := dst_Object dstOpts;
            dst_Encryption := Some k |})
    | None => (srcOpts, dstOpts)
    end in
  let err := CopyObject objects dstOpts srcOpts in
  (match err with
   | Some e => Some e
   | None => None
   end,
   [call_CopyObject dstOpts srcOpts]).

Module OSSConfig.

Record t : Type := mk {
  Endpoint : string;
  Region : string;
  HTTPS : string;
  Bucket : string;
  KeyID : string;
  Key : string
}.

End OSSConfig.

(** [url.URL], the two fields that [NewOSSClient] sets. *)
Record url_URL : Type := {
  Scheme : string;
  Host : string
}.

(** [*oss.Client], seen through its [Bucket] method. *)
Abbreviation oss_Client := (string -> oss_Bucket + error)%type.

Section OSSConstructor.

(** [uri.String()] and [oss.New] are the libraries'. *)
Variable url_String : url_URL -> string.
Variable oss_New : string -> string -> string -> oss_Client + error.

Definition NewOSSClient (config : OSSConfig.t)
  : (OSSClient.t + error) * list io_call :=
  let region := OSSConfig.Region config in
  let endpoint := OSSConfig.Endpoint config in
  let endpoint :=
    if String.eqb endpoint "" && negb (String.eqb region "")
    then "oss-" ++ region ++ ".aliyuncs.com"
    else endpoint in
  let uri := {| Scheme := ""; Host := endpoint |} in
  let https := stringToBool (OSSConfig.HTTPS config) true in
  let uri :=
    if https
    then {| Scheme := "https"; Host := Host uri |}
    else {| Scheme := "http"; Host := Host uri |} in
  let new := call_oss_New (url_String uri) (OSSConfig.KeyID config)
               (OSSConfig.Key config) in
  match oss_New (url_String uri) (OSSConfig.KeyID config) (OSSConfig.Key config) with
  | inr err => (inr err, [new])
  | inl backend =>
      match backend (OSSConfig.Bucket config) with
      | inr err => (inr err, [new; call_oss_Bucket (OSSConfig.Bucket config)])
      | inl bucket =>
          (inl (OSSClient.mk bucket),
           [new; call_oss_Bucket (OSSConfig.Bucket config)])
      end
  end.

End OSSConstructor.

Definition http_TimeFormat : string := "Mon, 02 Jan 2006 15:04:05 GMT".

Section OSSInfo.

(** [textproto.CanonicalMIMEHeaderKey], [strconv.ParseInt(s, base,
    bitSize)] and [time.Parse(layout, s)] are the libraries'. *)
Variable CanonicalMIMEHeaderKey : string -> string.
Variable strconv_ParseInt : string -> Z -> Z -> Z + error.
Variable time_Parse : string -> string -> Z + error.

(** [header.Get(key)] *)
Definition header_Get (header : http_Header) (key : string) : string :=
  match header !! CanonicalMIMEHeaderKey key with
  | Some (v :: _) => v
  | _ => ""
  end.

(** The body of the loop of [Info] over the keys of the header. *)
Definition Info_step (header : http_Header) (key : string) (_ : list string)
  (md : gmap string string) : gmap string string :=
  if negb (strings_HasPrefix key "X-Oss-Meta-")
  then md
  else
    let k := strings_TrimPrefix key "X-Oss-Meta-" in
    <[strings_ToLower k := header_Get header key]> md.

(** [client.Info(ctx, key)] of the OSS adapter, where
    [GetObjectDetailedMeta] is the method of the bucket. *)
Definition OSSClient_Info (GetObjectDetailedMeta : string -> http_Header + error)
  (key : string) : (option ObjectInfo * option error) * list io_call :=
  let log := [io_logged call_WithTimeout; call_oss_GetObjectDetailedMeta key] in
  match GetObjectDetailedMeta key with
  | inr err => ((None, Some err), log)
  | inl header =>
      match strconv_ParseInt (header_Get header "Content-Length") 10 64 with
      | inr err => ((None, Some err), log)
      | inl size =>
          match time_Parse http_TimeFormat (header_Get header "Last-Modified") with
          | inr err => ((None, Some err), log)
          | inl modified =>
              let md := map_fold (Info_step header) ∅ header in
              ((Some {| info_Size := size;
                        info_LastModified := modified;
                        info_Metadata := md |}, None), log)
          end
      end
  end.

End OSSInfo.

(** *** Schedules of a transfer *)

Module Transfer.

(** A period in which bytes arrive and nobody closes the reader. *)
Definition active (iv : TimeoutReader.interval) : Prop :=
  let l := (TimeoutReader.before iv ++ TimeoutReader.between iv)%list in
  Forall (fun a => TimeoutReader.is_close a = false /\
                   0 <= TimeoutReader.bytes_of a) l /\
  0 < TimeoutReader.bytes_read l < 2 ^ 63.

(** A period in which no byte arrives and nobody closes the reader. *)
Definition idle (iv : TimeoutReader.interval) : Prop :=
  let l := (TimeoutReader.before iv ++ TimeoutReader.between iv)%list in
  Forall (fun a => TimeoutReader.is_close a = false /\
                   TimeoutReader.bytes_of a = 0) l.

(** The calls of [Close] among some actions, and in a schedule. *)
Definition closes (l : list TimeoutReader.action) : nat :=
  fold_right (fun a n => if TimeoutReader.is_close a then S n else n) 0%nat l.

Definition sched_closes (sched : list TimeoutReader.interval) : nat :=
  fold_right
    (fun iv n => (closes (TimeoutReader.before iv)
                  + closes (TimeoutReader.between iv) + n)%nat)
    0%nat sched.

(** 1 when the timer went from its loop to the cancelling [return]. *)
Definition stalled (ts ts' : TimeoutReader.timer_state) : nat :=
  match ts, ts' with
  | TimeoutReader.Running, TimeoutReader.ReturnedCancel => 1
  | _, _ => 0
  end.

End Transfer.

(** *** The ticker

    [time.NewTicker(d)] fires every [d]: period [k] of a schedule is the
    time between the tick before it (or the making of the reader) and its
    own tick, the [(k+1)]-th.  Instants are nanoseconds since the reader
    was made. *)
Module Ticker.

Definition fires_at (k : nat) : Z :=
  (Z.of_nat k + 1) * TimeoutReader.ticker_period.

(** An instant of period [k]; the actions [before] the tick of the
    period happen at such instants. *)
Definition during (k : nat) (t : Z) : Prop :=
  fires_at k - TimeoutReader.ticker_period < t <= fires_at k.

End Ticker.

(** The token of the request that follows some pages. *)
Definition next_token (pages : list ListObjectsResultV2) : string :=
  match last pages with
  | Some page => NextContinuationToken page
  | None => ""
  end.

(** A request that names an object goes to the given bucket and carries
    the given encryption key; a batch removal or a listing goes to the
    given bucket. *)
Definition addressed (bucket : string) (sse : option ServerSide) (c : io_call)
  : Prop :=
  match c with
  | io_logged (call_PutObject b _ _ o) =>
      b = bucket /\ put_ServerSideEncryption o = sse
  | io_logged (call_StatObject b _ s) => b = bucket /\ s = sse
  | io_logged (call_RemoveObjects b _) => b = bucket
  | io_logged (call_ListObjects b _ _) => b = bucket
  | call_GetObject b _ s => b = bucket /\ s = sse
  | call_CopyObject dst src =>
      dst_Bucket dst = bucket /\ src_Bucket src = bucket /\
      dst_Encryption dst = sse /\ src_Encryption src = sse
  | _ => True
  end.

(** *** Sample inputs of these operations *)

Definition objects_with (get : TimeoutReader.Closer + error)
  (copy : option error) : minio_Objects :=
  {| GetObject := fun _ _ _ => get; CopyObject := fun _ _ => copy |}.


Definition plain_config (endpoint region v4 https style : string) : S3Config :=
  {| Endpoint := endpoint; Region := region; HTTPS := https; Bucket := "b";
     PathStyleRequest := style; KeyID := "id"; Key := "secret";
     V4Signature := v4; SSECKey := "" |}.

Definition failing_sdk : minio_SDK :=
  {| encrypt_NewSSEC := fun _ => inr (errorString "bad key");
     minio_New := fun _ _ => inr (errorString "bad endpoint") |}.

(** An S3 client whose stat request answers with the given metadata. *)
Definition s3_echo (md : gmap string string) : S3Client.t :=
  S3Client.mk
    {| PutObject := fun _ _ _ _ => None;
       StatObject := fun _ _ _ =>
         ({| obj_Key := ""; obj_Size := 4; obj_LastModified := 0;
             obj_UserMetadata := md; obj_Err := None |}, None);
       RemoveObjects := fun _ _ => [];
       ListObjects := fun _ _ _ => [] |} "bucket" None.

(** ** Theorems *)

Lemma stringToBool_enabled (s : string) :
  stringToBool s true = true <-> s <> "false".
Proof. unfold stringToBool. rewrite negb_true_iff. apply String.eqb_neq. Qed.

Lemma stringToBool_disabled (s : string) :
  stringToBool s false = true <-> s = "true".
Proof. unfold stringToBool. apply String.eqb_eq. Qed.

(** C8: with the default enabled [stringToBool] is true exactly when the
    string is not literally "false"; with the default disabled it is true
    exactly when the string is literally "true".  The comparison is the
    exact, case-sensitive equality of strings. *)
Theorem stringToBool_spec (s : string) :
  (stringToBool s true = true <-> s <> "false") /\
  (stringToBool s false = true <-> s = "true").
Proof.
  unfold stringToBool; split.
  - rewrite negb_true_iff. apply String.eqb_neq.
  - apply String.eqb_eq.
Qed.

(** *** Facts about [int64] wrap-around *)

Lemma wrap64_in_int64 z : in_int64 (wrap64 z).
Proof.
  unfold in_int64, wrap64.
  pose proof (Z.mod_pos_bound (z + 2 ^ 63) (2 ^ 64) ltac:(lia)). lia.
Qed.

Lemma wrap64_id z : in_int64 z -> wrap64 z = z.
Proof.
  unfold in_int64, wrap64; intros H.
  rewrite Z.mod_small by lia. lia.
Qed.

Lemma wrap64_add_l a b : wrap64 (wrap64 a + b) = wrap64 (a + b).
Proof.
  unfold wrap64.
  replace ((a + 2 ^ 63) mod 2 ^ 64 - 2 ^ 63 + b + 2 ^ 63)
    with ((a + 2 ^ 63) mod 2 ^ 64 + b) by lia.
  rewrite Zplus_mod_idemp_l. f_equal. f_equal. lia.
Qed.

(** *** The watchdog reader *)

Section TimeoutReaderFacts.
Import TimeoutReader.

Lemma Close_fields rd :
  snd (Close rd) =
  mk (c rd) (readed rd) true (S (cancels rd))
     (match c rd with Some _ => S (c_closes rd) | None => c_closes rd end).
Proof. unfold Close; simpl. destruct (c rd); reflexivity. Qed.

Lemma Close_iter_fields n rd :
  let rd' := Close_times n rd in
  c rd' = c rd /\ readed rd' = readed rd /\
  cancels rd' = (n + cancels rd)%nat /\
  c_closes rd' =
    match c rd with Some _ => (n + c_closes rd)%nat | None => c_closes rd end.
Proof.
  cbv zeta. induction n as [|n IH]; cbn [Close_times].
  - destruct (c rd); repeat split; reflexivity.
  - destruct IH as (Hc & Hr & Hk & Hcc).
    rewrite Close_fields; cbn [c readed cancels c_closes].
    rewrite Hc, Hr, Hk, Hcc.
    destruct (c rd); repeat split; reflexivity.
Qed.

Lemma acts_app rd l1 l2 : acts rd (l1 ++ l2) = acts (acts rd l1) l2.
Proof. apply fold_left_app. Qed.

Lemma acts_cons rd a l : acts rd (a :: l) = acts (act rd a) l.
Proof. reflexivity. Qed.

Lemma bytes_read_cons a l : bytes_read (a :: l) = bytes_of a + bytes_read l.
Proof. reflexivity. Qed.

Lemma bytes_read_app l1 l2 :
  bytes_read (l1 ++ l2) = bytes_read l1 + bytes_read l2.
Proof. induction l1 as [|a l1 IH]; simpl; [reflexivity | rewrite IH; lia]. Qed.

Lemma act_readed rd a : readed (act rd a) =
  match a with
  | ActRead n _ => wrap64 (readed rd + n)
  | ActClose => readed rd
  end.
Proof. destruct a; simpl; [reflexivity | destruct (c rd); reflexivity]. Qed.

Lemma act_closed rd a : closed (act rd a) = closed rd || is_close a.
Proof.
  destruct a; simpl; [now rewrite orb_false_r|].
  rewrite orb_true_r. destruct (c rd); reflexivity.
Qed.

(** The counter holds, modulo 2^64, the bytes read since it was last
    reset. *)
Lemma acts_readed l : forall rd,
  in_int64 (readed rd) ->
  readed (acts rd l) = wrap64 (readed rd + bytes_read l).
Proof.
  induction l as [|a l IH]; intros rd Hin.
  - cbn. rewrite Z.add_0_r. symmetry. now apply wrap64_id.
  - rewrite acts_cons, bytes_read_cons, IH.
    + rewrite act_readed. destruct a as [n e|]; cbn [bytes_of].
      * rewrite wrap64_add_l. f_equal. lia.
      * f_equal.
    + rewrite act_readed. destruct a; [apply wrap64_in_int64 | exact Hin].
Qed.

(** The closed flag is never cleared: it is set iff it was set before
    or one of the actions is a [Close]. *)
Lemma acts_closed l : forall rd,
  closed (acts rd l) = closed rd || existsb is_close l.
Proof.
  induction l as [|a l IH]; intros rd.
  - cbn. now rewrite orb_false_r.
  - rewrite acts_cons, IH, act_closed. cbn [existsb]. now rewrite orb_assoc.
Qed.

Lemma run_returned sched : forall ts rd,
  ts <> Running -> fst (run (ts, rd) sched) = ts.
Proof.
  induction sched as [|iv sched IH]; intros ts rd Hts; [reflexivity|].
  change (run (ts, rd) (iv :: sched))
    with (run (run_interval (ts, rd) iv) sched).
  destruct ts; [congruence | |]; cbn [run_interval]; now apply IH.
Qed.

Lemma run_app_early s sched1 sched2 :
  run s (sched1 ++ sched2) = run (run s sched1) sched2.
Proof. apply fold_left_app. Qed.

Lemma timer_swap_state rd :
  fst (timer_swap rd) = if readed rd =? 0 then ReturnedCancel else Running.
Proof. unfold timer_swap. destruct (readed rd =? 0); reflexivity. Qed.

Lemma bytes_read_nonneg l :
  Forall (fun a => 0 <= bytes_of a) l -> 0 <= bytes_read l.
Proof. induction 1; simpl; lia. Qed.

End TimeoutReaderFacts.

(** C10: [Close] returns nil on every call, the first and every repeated
    one, whether or not an auxiliary closer is present and whatever that
    closer returns; each call sets the closed flag, invokes the cancel
    function once and, when the closer is present, calls it once and
    drops its result. *)
Theorem TimeoutReader_Close_nil (rd : TimeoutReader.t) (n : nat) :
  let rd_n := TimeoutReader.Close_times n rd in
  fst (TimeoutReader.Close rd_n) = None /\
  TimeoutReader.closed (snd (TimeoutReader.Close rd_n)) = true /\
  TimeoutReader.cancels (snd (TimeoutReader.Close rd_n))
    = S (n + TimeoutReader.cancels rd) /\
  TimeoutReader.c_closes (snd (TimeoutReader.Close rd_n))
    = match TimeoutReader.c rd with
      | Some _ => S (n + TimeoutReader.c_closes rd)
      | None => TimeoutReader.c_closes rd
      end /\
  TimeoutReader.readed (snd (TimeoutReader.Close rd_n))
    = TimeoutReader.readed rd.
Proof.
  intros rd_n.
  destruct (Close_iter_fields n rd) as (Hc & Hr & Hk & Hcc).
  fold rd_n in Hc, Hr, Hk, Hcc.
  rewrite Close_fields.
  cbn [fst TimeoutReader.closed TimeoutReader.cancels TimeoutReader.c_closes
       TimeoutReader.readed TimeoutReader.Close].
  rewrite Hc, Hr, Hk, Hcc.
  repeat split; try reflexivity.
  destruct (TimeoutReader.c rd); reflexivity.
Qed.

(** A [Close] among the actions before the tick makes the timer return
    at that tick, changing nothing. *)
Lemma closed_at_load rd iv :
  TimeoutReader.closed (TimeoutReader.acts rd (TimeoutReader.before iv)) = true ->
  TimeoutReader.run_interval (TimeoutReader.Running, rd) iv
    = (TimeoutReader.ReturnedClosed,
       TimeoutReader.acts rd (TimeoutReader.before iv ++ TimeoutReader.between iv)).
Proof.
  intros H. unfold TimeoutReader.run_interval. now rewrite acts_app, H.
Qed.

Lemma close_sets_flag l rd :
  In TimeoutReader.ActClose l ->
  TimeoutReader.closed (TimeoutReader.acts rd l) = true.
Proof.
  intros Hin. rewrite acts_closed.
  apply orb_true_iff; right. apply existsb_exists.
  exists TimeoutReader.ActClose; split; [exact Hin | reflexivity].
Qed.

(** A [Close] between the load and the swap of a tick makes the timer
    return at that tick or at the next one. *)
Lemma close_between_returns rd iv iv' :
  In TimeoutReader.ActClose (TimeoutReader.between iv) ->
  fst (TimeoutReader.run (TimeoutReader.Running, rd) [iv; iv'])
    <> TimeoutReader.Running.
Proof.
  intros Hin.
  change (TimeoutReader.run (TimeoutReader.Running, rd) [iv; iv'])
    with (TimeoutReader.run_interval
            (TimeoutReader.run_interval (TimeoutReader.Running, rd) iv) iv').
  unfold TimeoutReader.run_interval at 2.
  destruct (TimeoutReader.closed
              (TimeoutReader.acts rd (TimeoutReader.before iv)));
    [destruct iv'; cbn; congruence|].
  pose proof (close_sets_flag _ (TimeoutReader.acts rd (TimeoutReader.before iv))
                Hin) as Hc2.
  unfold TimeoutReader.timer_swap.
  destruct (TimeoutReader.readed _ =? 0); [cbn; congruence|].
  cbn [TimeoutReader.run_interval TimeoutReader.closed] in *.
  rewrite acts_closed. cbn [TimeoutReader.closed].
  rewrite Hc2. cbn. congruence.
Qed.

(** C5: the loop of [timer], ticking every 30 seconds.

    One iteration, with nothing else touching the reader: if the closed
    flag is set the loop returns and changes nothing; otherwise a non-zero
    counter is reset to zero and the loop goes on, the cancel function
    not invoked; otherwise (counter zero) the cancel function is invoked,
    once, and the loop returns.  A period of the ticker with reads and
    closes before the tick and between the timer's load and swap does the
    same on the flag as loaded and the counter as swapped, and the
    iteration above is the period without such actions.

    Hence a [Close] called during a period makes the loop return at the
    tick of that period, less than 30 seconds later; one that slips in
    between the load and the swap of a tick makes it return at the next
    tick, 30 seconds later, at the latest.  A returned loop stays returned
    and touches the reader no more.  With a counter that starts a period
    at zero, the counter at the swap is the number of bytes read in the
    period, and the timer cancels in that period exactly when its load
    saw the reader unclosed and no byte was read. *)
Theorem TimeoutReader_timer_spec
  (rd : TimeoutReader.t) (iv iv' : TimeoutReader.interval)
  (sched : list TimeoutReader.interval) :
  let before := TimeoutReader.before iv in
  let between := TimeoutReader.between iv in
  let at_load := TimeoutReader.acts rd before in
  let at_swap := TimeoutReader.acts rd (before ++ between) in
  let reset r :=
    TimeoutReader.mk (TimeoutReader.c r) 0 (TimeoutReader.closed r)
      (TimeoutReader.cancels r) (TimeoutReader.c_closes r) in
  let cancelled r :=
    TimeoutReader.mk (TimeoutReader.c r) 0 (TimeoutReader.closed r)
      (S (TimeoutReader.cancels r)) (TimeoutReader.c_closes r) in
  (TimeoutReader.closed rd = true ->
     TimeoutReader.timer_tick rd = (TimeoutReader.ReturnedClosed, rd)) /\
  (TimeoutReader.closed rd = false -> TimeoutReader.readed rd <> 0 ->
     TimeoutReader.timer_tick rd =
       (TimeoutReader.Running,
        TimeoutReader.mk (TimeoutReader.c rd) 0 false
          (TimeoutReader.cancels rd) (TimeoutReader.c_closes rd))) /\
  (TimeoutReader.closed rd = false -> TimeoutReader.readed rd = 0 ->
     TimeoutReader.timer_tick rd =
       (TimeoutReader.ReturnedCancel,
        TimeoutReader.mk (TimeoutReader.c rd) 0 false
          (S (TimeoutReader.cancels rd)) (TimeoutReader.c_closes rd))) /\
  TimeoutReader.run_interval (TimeoutReader.Running, rd)
    {| TimeoutReader.before := []; TimeoutReader.between := [] |}
    = TimeoutReader.timer_tick rd /\
  (TimeoutReader.closed at_load = true ->
     TimeoutReader.run_interval (TimeoutReader.Running, rd) iv
       = (TimeoutReader.ReturnedClosed, at_swap)) /\
  (TimeoutReader.closed at_load = false ->
   TimeoutReader.readed at_swap <> 0 ->
     TimeoutReader.run_interval (TimeoutReader.Running, rd) iv
       = (TimeoutReader.Running, reset at_swap)) /\
  (TimeoutReader.closed at_load = false ->
   TimeoutReader.readed at_swap = 0 ->
     TimeoutReader.run_interval (TimeoutReader.Running, rd) iv
       = (TimeoutReader.ReturnedCancel, cancelled at_swap)) /\
  (TimeoutReader.closed rd = true \/ In TimeoutReader.ActClose before ->
     TimeoutReader.run_interval (TimeoutReader.Running, rd) iv =
       (TimeoutReader.ReturnedClosed,
        TimeoutReader.acts rd (before ++ between))) /\
  (In TimeoutReader.ActClose between ->
     fst (TimeoutReader.run (TimeoutReader.Running, rd) [iv; iv'])
       <> TimeoutReader.Running) /\
  (In TimeoutReader.ActClose before ->
   forall t, Ticker.during (length sched) t ->
     fst (TimeoutReader.run (TimeoutReader.Running, rd) (sched ++ [iv]))
       <> TimeoutReader.Running /\
     Ticker.fires_at (length sched) - t < 30 * 1000000000) /\
  (In TimeoutReader.ActClose between ->
     fst (TimeoutReader.run (TimeoutReader.Running, rd) (sched ++ [iv; iv']))
       <> TimeoutReader.Running /\
     Ticker.fires_at (S (length sched)) - Ticker.fires_at (length sched)
       = 30 * 1000000000) /\
  (forall ts, ts <> TimeoutReader.Running ->
     fst (TimeoutReader.run (ts, rd) sched) = ts) /\
  (forall ts, ts <> TimeoutReader.Running ->
     TimeoutReader.run_interval (ts, rd) iv = (ts, at_swap)) /\
  (TimeoutReader.readed rd = 0 ->
   Forall (fun a => 0 <= TimeoutReader.bytes_of a) (before ++ between) ->
   TimeoutReader.bytes_read (before ++ between) < 2 ^ 63 ->
   TimeoutReader.readed at_swap = TimeoutReader.bytes_read (before ++ between) /\
   (fst (TimeoutReader.run_interval (TimeoutReader.Running, rd) iv)
      = TimeoutReader.ReturnedCancel
    <-> TimeoutReader.closed (TimeoutReader.acts rd before) = false /\
        TimeoutReader.bytes_read (before ++ between) = 0)).
Proof.
  intros before between at_load at_swap reset cancelled.
  assert (Hswap : forall r,
            TimeoutReader.timer_swap r
              = if TimeoutReader.readed r =? 0
                then (TimeoutReader.ReturnedCancel, cancelled r)
                else (TimeoutReader.Running, reset r)).
  { intros r. unfold TimeoutReader.timer_swap. reflexivity. }
  assert (Hopen : TimeoutReader.closed at_load = false ->
            TimeoutReader.run_interval (TimeoutReader.Running, rd) iv
              = TimeoutReader.timer_swap at_swap).
  { intros H. unfold TimeoutReader.run_interval. fold before between at_load.
    rewrite H. unfold at_load, at_swap. now rewrite acts_app. }
  split; [intros Hc; unfold TimeoutReader.timer_tick; now rewrite Hc|].
  split.
  { intros Hc Hr. unfold TimeoutReader.timer_tick, TimeoutReader.timer_swap.
    rewrite Hc. apply Z.eqb_neq in Hr. now rewrite Hr. }
  split.
  { intros Hc Hr. unfold TimeoutReader.timer_tick, TimeoutReader.timer_swap.
    rewrite Hc, Hr. reflexivity. }
  split; [reflexivity|].
  split; [intros H; now apply closed_at_load|].
  split.
  { intros Hc Hr. rewrite (Hopen Hc), Hswap.
    apply Z.eqb_neq in Hr. now rewrite Hr. }
  split.
  { intros Hc Hr. rewrite (Hopen Hc), Hswap, Hr. reflexivity. }
  split.
  { intros H. apply closed_at_load. fold before.
    destruct H as [H|H]; [|now apply close_sets_flag].
    rewrite acts_closed, H. reflexivity. }
  split; [now apply close_between_returns|].
  split.
  { intros Hin t Ht. split.
    - rewrite run_app_early.
      destruct (TimeoutReader.run (TimeoutReader.Running, rd) sched)
        as [ts r] eqn:Er.
      destruct ts.
      + change (TimeoutReader.run (TimeoutReader.Running, r) [iv])
          with (TimeoutReader.run_interval (TimeoutReader.Running, r) iv).
        rewrite closed_at_load by now apply close_sets_flag.
        cbn. congruence.
      + rewrite run_returned; congruence.
      + rewrite run_returned; congruence.
    - unfold Ticker.during, Ticker.fires_at, TimeoutReader.ticker_period,
        TimeoutReader.time_Second in *. lia. }
  split.
  { intros Hin. split.
    - rewrite run_app_early.
      destruct (TimeoutReader.run (TimeoutReader.Running, rd) sched)
        as [ts r] eqn:Er.
      destruct ts; [now apply close_between_returns | |];
        rewrite run_returned; congruence.
    - unfold Ticker.fires_at, TimeoutReader.ticker_period,
        TimeoutReader.time_Second. lia. }
  split; [intros ts Hts; now apply run_returned|].
  split.
  { intros ts Hts. unfold TimeoutReader.run_interval, at_swap.
    rewrite acts_app. destruct ts; [congruence | reflexivity | reflexivity]. }
  intros Hr Hpos Hlt.
  pose proof (bytes_read_nonneg _ Hpos) as Hge.
  assert (Hcnt : TimeoutReader.readed at_swap
                 = TimeoutReader.bytes_read (before ++ between)).
  { unfold at_swap. rewrite acts_readed by (rewrite Hr; unfold in_int64; lia).
    rewrite Hr, Z.add_0_l. apply wrap64_id. unfold in_int64; lia. }
  split; [exact Hcnt|].
  fold at_load. destruct (TimeoutReader.closed at_load) eqn:Hc.
  - rewrite closed_at_load by exact Hc. cbn.
    split; [discriminate | intros [? _]; discriminate].
  - rewrite (Hopen eq_refl), timer_swap_state, Hcnt.
    destruct (Z.eqb_spec (TimeoutReader.bytes_read (before ++ between)) 0).
    + split; auto.
    + split; [discriminate | intros [_ ?]; contradiction].
Qed.

Lemma TimeoutReader_timer_spec_witness :
  let fresh := TimeoutReader.newTimeoutReader None in
  let read4 := snd (TimeoutReader.Read fresh (4, None)) in
  let shut := snd (TimeoutReader.Close fresh) in
  let idle := {| TimeoutReader.before := [TimeoutReader.ActRead 0 None];
                 TimeoutReader.between := [] |} in
  let busy := {| TimeoutReader.before := [TimeoutReader.ActRead 4 None];
                 TimeoutReader.between := [TimeoutReader.ActRead 3 None] |} in
  let quit := {| TimeoutReader.before := [TimeoutReader.ActRead 4 None;
                                          TimeoutReader.ActClose];
                 TimeoutReader.between := [] |} in
  let late := {| TimeoutReader.before := [TimeoutReader.ActRead 4 None];
                 TimeoutReader.between := [TimeoutReader.ActClose] |} in
  TimeoutReader.timer_tick fresh
    = (TimeoutReader.ReturnedCancel, TimeoutReader.mk None 0 false 1 0) /\
  TimeoutReader.timer_tick read4
    = (TimeoutReader.Running, TimeoutReader.mk None 0 false 0 0) /\
  TimeoutReader.timer_tick shut = (TimeoutReader.ReturnedClosed, shut) /\
  TimeoutReader.run_interval (TimeoutReader.Running, fresh) idle
    = (TimeoutReader.ReturnedCancel, TimeoutReader.mk None 0 false 1 0) /\
  TimeoutReader.run_interval (TimeoutReader.Running, fresh) busy
    = (TimeoutReader.Running, TimeoutReader.mk None 0 false 0 0) /\
  TimeoutReader.run_interval (TimeoutReader.Running, fresh) quit
    = (TimeoutReader.ReturnedClosed, TimeoutReader.mk None 4 true 1 0) /\
  TimeoutReader.run_interval (TimeoutReader.ReturnedCancel, fresh) busy
    = (TimeoutReader.ReturnedCancel, TimeoutReader.mk None 7 false 0 0) /\
  (fst (TimeoutReader.run (TimeoutReader.Running, fresh) [busy; busy; quit])
     <> TimeoutReader.Running /\
   Ticker.fires_at 2 - 61000000000 < 30 * 1000000000) /\
  (fst (TimeoutReader.run (TimeoutReader.Running, fresh) [busy; late; idle])
     <> TimeoutReader.Running /\
   Ticker.fires_at 2 - Ticker.fires_at 1 = 30 * 1000000000) /\
  fst (TimeoutReader.run (TimeoutReader.ReturnedCancel, fresh) [late; idle])
    = TimeoutReader.ReturnedCancel /\
  (TimeoutReader.readed
     (TimeoutReader.acts fresh
        [TimeoutReader.ActRead 4 None; TimeoutReader.ActRead 3 None]) = 7 /\
   (fst (TimeoutReader.run_interval (TimeoutReader.Running, fresh) idle)
      = TimeoutReader.ReturnedCancel)).
Proof.
  intros fresh read4 shut idle busy quit late.
  destruct (TimeoutReader_timer_spec fresh idle idle [late; idle])
    as (_ & _ & Hcancel & _ & _ & _ & Hidle & _ & _ & _ & _ & Hstay & _ & Hiff).
  destruct (TimeoutReader_timer_spec read4 idle idle [])
    as (_ & Hreset & _).
  destruct (TimeoutReader_timer_spec shut idle idle [])
    as (Hclosed & _).
  destruct (TimeoutReader_timer_spec fresh busy idle [])
    as (_ & _ & _ & _ & _ & Hbusy & _ & _ & _ & _ & _ & _ & Hdone & Hcount).
  destruct (TimeoutReader_timer_spec fresh quit idle [busy; busy])
    as (_ & _ & _ & _ & Hquit & _ & _ & _ & _ & Hwithin & _).
  destruct (TimeoutReader_timer_spec fresh late idle [busy])
    as (_ & _ & _ & _ & _ & _ & _ & _ & _ & _ & Hlate & _).
  split; [apply Hcancel; reflexivity|].
  split; [apply Hreset; [reflexivity | vm_compute; discriminate]|].
  split; [apply Hclosed; reflexivity|].
  split; [apply Hidle; reflexivity|].
  split; [apply Hbusy; [reflexivity | vm_compute; discriminate]|].
  split; [apply Hquit; reflexivity|].
  split; [apply (Hdone TimeoutReader.ReturnedCancel); discriminate|].
  split.
  { apply Hwithin; [right; left; reflexivity|].
    unfold Ticker.during. vm_compute. split; [reflexivity | discriminate]. }
  split; [apply Hlate; left; reflexivity|].
  split; [apply Hstay; discriminate|].
  split.
  { apply Hcount; [reflexivity | | vm_compute; reflexivity].
    repeat constructor; vm_compute; discriminate. }
  apply Hiff.
  - reflexivity.
  - repeat constructor; vm_compute; discriminate.
  - vm_compute; reflexivity.
  - split; reflexivity.
Defined.

(** *** The S3 adapter *)

(** C3: with a non-empty SSE-C key, [NewS3Client] returns an error and no
    client, without any request to the SDK, unless the key is 32 bytes
    long, the v4 signature is selected and the transport is https; a key
    whose length is not 32 gives the length error whatever the rest of the
    configuration is.  When all three hold the constructor goes on to the
    SDK, and returns a client holding the key when the SDK raises no
    error. *)
Theorem NewS3Client_ssec_validation (sdk : minio_SDK) (config : S3Config) :
  SSECKey config <> "" ->
  (~ (String.length (SSECKey config) = 32%nat /\
      V4Signature config = "true" /\ HTTPS config <> "false") ->
   exists err, NewS3Client sdk config = (inr err, [])) /\
  (String.length (SSECKey config) <> 32%nat ->
   NewS3Client sdk config
     = (inr (errors_New "length of SSE-C key must be 32 bytes"), [])) /\
  (String.length (SSECKey config) = 32%nat ->
   V4Signature config = "true" -> HTTPS config <> "false" ->
   (exists rest,
      snd (NewS3Client sdk config) = call_NewSSEC (SSECKey config) :: rest) /\
   (forall k backend,
      encrypt_NewSSEC sdk (SSECKey config) = inl k ->
      (forall endpoint o, minio_New sdk endpoint o = inl backend) ->
      fst (NewS3Client sdk config)
        = inl (S3Client.mk backend (Bucket config) (Some k)))).
Proof.
  intros Hkey.
  apply String.eqb_neq in Hkey.
  pose proof (stringToBool_disabled (V4Signature config)) as Hv4.
  pose proof (stringToBool_enabled (HTTPS config)) as Hhttps.
  unfold NewS3Client. rewrite Hkey. cbn [negb].
  destruct (Nat.eqb_spec (String.length (SSECKey config)) 32) as [Hlen|Hlen];
    cbn [negb].
  2:{ split; [intros _; eexists; reflexivity|].
      split; [intros _; reflexivity | intros; contradiction]. }
  destruct (stringToBool (V4Signature config) false) eqn:Ev4; cbn [negb].
  2:{ split; [intros _; eexists; reflexivity|].
      split; [intros; contradiction|].
      intros _ Hv _. apply Hv4 in Hv. discriminate. }
  destruct (stringToBool (HTTPS config) true) eqn:Eh; cbn [negb].
  2:{ split; [intros _; eexists; reflexivity|].
      split; [intros; contradiction|].
      intros _ _ Hh. apply Hhttps in Hh. discriminate. }
  split.
  { intros Hnot. exfalso. apply Hnot.
    split; [exact Hlen|]. split; [now apply Hv4 | now apply Hhttps]. }
  split; [intros; contradiction|].
  intros _ _ _. split.
  - destruct (encrypt_NewSSEC sdk (SSECKey config)); cbn.
    + destruct (minio_New sdk _ _); cbn; eexists; reflexivity.
    + eexists; reflexivity.
  - intros k backend Hk Hnew. rewrite Hk. cbn. rewrite Hnew. reflexivity.
Qed.

Lemma NewS3Client_ssec_validation_witness :
  NewS3Client ssec_sdk (ssec_config "short" "true" "true")
    = (inr (errors_New "length of SSE-C key must be 32 bytes"), []) /\
  (exists err,
     NewS3Client ssec_sdk
       (ssec_config "0123456789abcdef0123456789abcdef" "true" "false")
     = (inr err, [])) /\
  (exists rest,
     snd (NewS3Client ssec_sdk
            (ssec_config "0123456789abcdef0123456789abcdef" "true" ""))
     = call_NewSSEC "0123456789abcdef0123456789abcdef" :: rest).
Proof.
  split.
  { apply (NewS3Client_ssec_validation ssec_sdk
             (ssec_config "short" "true" "true")); [discriminate|].
    cbn; discriminate. }
  split.
  { apply (NewS3Client_ssec_validation ssec_sdk
             (ssec_config "0123456789abcdef0123456789abcdef" "true" "false"));
      [discriminate|].
    cbn. intros (_ & _ & H). now apply H. }
  apply (NewS3Client_ssec_validation ssec_sdk
           (ssec_config "0123456789abcdef0123456789abcdef" "true" ""));
    [discriminate | reflexivity | reflexivity | discriminate].
Defined.

(** What the S3 [Write] sends when the size check passes: the caller's
    metadata as it is. *)
Lemma S3_Write_sends (client : S3Client.t) (key : string) (w : WriteOptions) :
  Size w <> 0 ->
  let opts := {| put_ServerSideEncryption := S3Client.sseckey client;
                 put_UserMetadata := Metadata w |} in
  S3Client.Write client key (Some w)
    = (PutObject (S3Client.backend client) (S3Client.bucket client)
         key (Size w) opts,
       [call_WithCancel; call_newTimeoutReader false;
        call_PutObject (S3Client.bucket client) key (Size w) opts;
        call_reader_Close]).
Proof.
  intros Hw opts. unfold S3Client.Write.
  apply Z.eqb_neq in Hw. rewrite Hw.
  assert (Hum : (if 0 <? Z.of_nat (size (Metadata w))
                 then Metadata w else ∅) = Metadata w).
  { destruct (Z.ltb_spec 0 (Z.of_nat (size (Metadata w)))); [reflexivity|].
    symmetry. apply map_size_empty_iff. lia. }
  assert (Hsse : match S3Client.sseckey client with
                 | Some k => Some k
                 | None => None
                 end = S3Client.sseckey client)
    by (destruct (S3Client.sseckey client); reflexivity).
  cbv zeta. rewrite Hum, Hsse. fold opts.
  destruct (PutObject (S3Client.backend client) (S3Client.bucket client)
              key (Size w) opts); reflexivity.
Qed.

(** C4: the S3 [Write] returns the size error at once, with no watchdog
    reader built and no request issued, when the options are nil or the
    size is zero; with any non-zero size it builds the reader, sends the
    upload and returns what the upload returned. *)
Theorem S3_Write_size_check
  (client : S3Client.t) (key : string) (o : option WriteOptions) :
  ((o = None \/ exists w, o = Some w /\ Size w = 0) ->
   S3Client.Write client key o
     = (Some (errors_New "the size option must be specified"), [])) /\
  (forall w, o = Some w -> Size w <> 0 ->
   exists opts,
     S3Client.Write client key o
       = (PutObject (S3Client.backend client) (S3Client.bucket client)
            key (Size w) opts,
          [call_WithCancel; call_newTimeoutReader false;
           call_PutObject (S3Client.bucket client) key (Size w) opts;
           call_reader_Close])).
Proof.
  split.
  - intros [-> | (w & -> & Hw)]; [reflexivity|].
    unfold S3Client.Write. now rewrite Hw.
  - intros w -> Hw. eexists. now apply S3_Write_sends.
Qed.

Lemma S3_Write_size_check_witness :
  S3Client.Write (s3_with None None [] []) "k"
    (Some {| Size := 0; Metadata := ∅ |})
    = (Some (errors_New "the size option must be specified"), []) /\
  exists opts,
    S3Client.Write (s3_with None None [] []) "k"
      (Some {| Size := 4; Metadata := ∅ |})
    = (None,
       [call_WithCancel; call_newTimeoutReader false;
        call_PutObject "bucket" "k" 4 opts; call_reader_Close]).
Proof.
  split.
  - apply (S3_Write_size_check (s3_with None None [] []) "k"
             (Some {| Size := 0; Metadata := ∅ |})).
    right. eexists; split; reflexivity.
  - destruct (S3_Write_size_check (s3_with None None [] []) "k"
                (Some {| Size := 4; Metadata := ∅ |})) as [_ Hsend].
    destruct (Hsend {| Size := 4; Metadata := ∅ |}) as [opts Hopts];
      [reflexivity | discriminate |].
    exists opts. exact Hopts.
Defined.

(** C1: the S3 [Write], run on the metadata [{"Foo": "bar"}], sends the
    mapping with the key as the caller wrote it: the lower-cased copy that
    the loop builds is replaced by the caller's mapping before the upload.
    The OSS [Write] sends the lower-cased key for the same input. *)
Theorem S3_Write_metadata_sent_as_given (client : S3Client.t) (key : string) :
  let md : gmap string string := {["Foo" := "bar"]} in
  let o := {| Size := 4; Metadata := md |} in
  snd (S3Client.Write client key (Some o))
    = [call_WithCancel; call_newTimeoutReader false;
       call_PutObject (S3Client.bucket client) key 4
         {| put_ServerSideEncryption := S3Client.sseckey client;
            put_UserMetadata := md |};
       call_reader_Close] /\
  md !! "foo" = None /\
  S3Client.lowered md = {["foo" := "bar"]} /\
  S3Client.lowered md <> md /\
  forall oss,
    snd (OSSClient.Write oss key (Some o))
      = [call_oss_PutObject key [oss_WithContext; oss_Meta "foo" "bar"]].
Proof.
  intros md o.
  assert (Hlow : S3Client.lowered md = {["foo" := "bar"]}).
  { unfold S3Client.lowered, md. now rewrite map_fold_singleton. }
  split.
  { rewrite (S3_Write_sends client key o) by discriminate. reflexivity. }
  split; [reflexivity|].
  split; [exact Hlow|].
  split.
  { rewrite Hlow. intros H.
    assert (H' : ({["foo" := "bar"]} : gmap string string) !! "foo"
                 = md !! "foo") by now rewrite H.
    rewrite lookup_singleton_eq in H'. discriminate. }
  intros oss. unfold OSSClient.Write, o, md. cbn [Metadata].
  rewrite map_size_singleton, map_to_list_singleton. reflexivity.
Qed.

(** *** Exist *)

(** C9: the S3 [Exist] turns a not-found answer of the stat request (status
    404) into [(false, nil)], returns any other error of the request as
    the error, and [(true, nil)] when there is none; the OSS [Exist]
    returns what the SDK's existence test returns, so its [(false, nil)]
    stays [(false, nil)] and its errors are returned as they are. *)
Theorem Exist_not_found
  (s3 : S3Client.t) (oss : OSSClient.t) (key : string) :
  let err := snd (StatObject (S3Client.backend s3) (S3Client.bucket s3) key
                    (S3Client.sseckey s3)) in
  (ToErrorResponse_StatusCode err = http_StatusNotFound ->
   fst (S3Client.Exist s3 key) = (false, None)) /\
  (forall e, err = Some e ->
   ToErrorResponse_StatusCode err <> http_StatusNotFound ->
   fst (S3Client.Exist s3 key) = (false, Some e)) /\
  (err = None -> fst (S3Client.Exist s3 key) = (true, None)) /\
  snd (S3Client.Exist s3 key)
    = [call_StatObject (S3Client.bucket s3) key (S3Client.sseckey s3)] /\
  fst (OSSClient.Exist oss key) = oss_IsObjectExist (OSSClient.bucket oss) key /\
  (oss_IsObjectExist (OSSClient.bucket oss) key = (false, None) ->
   fst (OSSClient.Exist oss key) = (false, None)) /\
  (forall b e, oss_IsObjectExist (OSSClient.bucket oss) key = (b, Some e) ->
   snd (fst (OSSClient.Exist oss key)) = Some e).
Proof.
  intros err. unfold S3Client.Exist. fold err.
  destruct (StatObject (S3Client.backend s3) (S3Client.bucket s3) key
              (S3Client.sseckey s3)) as [stat err'] eqn:Est.
  cbn [snd] in err. subst err.
  split.
  { intros H. apply Z.eqb_eq in H. cbn. now rewrite H. }
  split.
  { intros e -> H. apply Z.eqb_neq in H. cbn in *. now rewrite H. }
  split; [intros ->; reflexivity|].
  split.
  { cbn. destruct (_ =? _); [reflexivity|]. destruct err'; reflexivity. }
  split; [reflexivity|].
  split; [intros H; cbn; exact H|].
  intros b e H. cbn. now rewrite H.
Qed.

Lemma Exist_not_found_witness :
  fst (S3Client.Exist
         (s3_with None (Some (ErrorResponse 404 "The specified key does not exist."))
                  [] []) "objclient/copy") = (false, None) /\
  fst (S3Client.Exist
         (s3_with None (Some (ErrorResponse 403 "Access Denied.")) [] [])
         "objclient/copy")
    = (false, Some (ErrorResponse 403 "Access Denied.")) /\
  fst (S3Client.Exist (s3_with None None [] []) "objclient/test")
    = (true, None) /\
  fst (OSSClient.Exist (oss_with (false, None) None two_pages) "objclient/copy")
    = (false, None) /\
  snd (fst (OSSClient.Exist
              (oss_with (false, Some (errorString "timeout")) None two_pages)
              "objclient/copy")) = Some (errorString "timeout").
Proof.
  split.
  { apply (Exist_not_found
             (s3_with None (Some (ErrorResponse 404 "The specified key does not exist."))
                      [] [])
             (oss_with (false, None) None two_pages) "objclient/copy").
    reflexivity. }
  split.
  { apply (Exist_not_found
             (s3_with None (Some (ErrorResponse 403 "Access Denied.")) [] [])
             (oss_with (false, None) None two_pages) "objclient/copy");
      [reflexivity | cbn; discriminate]. }
  split.
  { apply (Exist_not_found (s3_with None None [] [])
             (oss_with (false, None) None two_pages) "objclient/test").
    reflexivity. }
  split.
  { apply (Exist_not_found (s3_with None None [] [])
             (oss_with (false, None) None two_pages) "objclient/copy").
    reflexivity. }
  destruct (Exist_not_found (s3_with None None [] [])
              (oss_with (false, Some (errorString "timeout")) None two_pages)
              "objclient/copy") as (_ & _ & _ & _ & _ & _ & Herr).
  apply (Herr false). reflexivity.
Defined.

(** *** Remove *)

Lemma append_assoc' (a b c : string) : (a ++ b) ++ c = a ++ (b ++ c).
Proof.
  induction a as [|ch a IH]; [reflexivity|].
  change (String ch ((a ++ b) ++ c) = String ch (a ++ (b ++ c))).
  now rewrite IH.
Qed.

Lemma prefix_refl s : String.prefix s s = true.
Proof.
  induction s as [|a s IH]; cbn; [reflexivity|].
  destruct (ascii_dec a a); [exact IH | contradiction].
Qed.

Lemma prefix_append s t : String.prefix s (s ++ t) = true.
Proof.
  induction s as [|a s IH]; [destruct t; reflexivity|].
  change (String a s ++ t) with (String a (s ++ t)). cbn [String.prefix].
  destruct (ascii_dec a a); [exact IH | contradiction].
Qed.

Lemma strings_Contains_prefix s sub :
  String.prefix sub s = true -> strings_Contains s sub = true.
Proof.
  intros H. destruct s; cbn [strings_Contains]; rewrite H; reflexivity.
Qed.

Lemma strings_Contains_append_r a s sub :
  strings_Contains s sub = true -> strings_Contains (a ++ s) sub = true.
Proof.
  intros H. induction a as [|ch a IH]; [exact H|].
  change (String ch a ++ s) with (String ch (a ++ s)).
  cbn [strings_Contains]. rewrite IH. apply orb_true_r.
Qed.

Lemma first_error_kept (errs : list RemoveObjectError) (e0 : error) :
  fold_left
    (fun (err : option error) e =>
       match err with
       | None =>
           Some (fmt_Errorf_w ("failed to remove " ++ ObjectName e ++ ": ") (Err e))
       | Some _ => err
       end) errs (Some e0) = Some e0.
Proof. induction errs as [|e errs IH]; [reflexivity | exact IH]. Qed.

(** C2, as the code has it: both adapters hand all the keys to the backend
    in one request.  The S3 adapter returns nil when the backend reports
    no failure, and otherwise the first reported failure, wrapped in an
    error whose text is "failed to remove <name>: <cause>"; the OSS
    adapter returns the error of its single request as it is. *)
Theorem Remove_first_failure
  (s3 : S3Client.t) (oss : OSSClient.t) (keys : list string) :
  keys <> [] ->
  let errs := RemoveObjects (S3Client.backend s3) (S3Client.bucket s3) keys in
  S3Client.Remove s3 keys
    = (match errs with
       | [] => None
       | e :: _ =>
           Some (wrapError
                   ("failed to remove " ++ ObjectName e ++ ": " ++ Error (Err e))
                   (Err e))
       end,
       [call_RemoveObjects (S3Client.bucket s3) keys]) /\
  (forall e rest, errs = e :: rest -> In (ObjectName e) keys ->
   exists err, fst (S3Client.Remove s3 keys) = Some err /\
               Unwrap err = Some (Err e) /\
               names_key_and_cause keys err) /\
  OSSClient.Remove oss keys
    = (oss_DeleteObjects (OSSClient.bucket oss) keys,
       [call_WithTimeout; call_oss_DeleteObjects keys]).
Proof.
  intros Hkeys errs.
  assert (Hlen : (length keys =? 0)%nat = false).
  { destruct keys; [contradiction | reflexivity]. }
  assert (Hs3 : S3Client.Remove s3 keys
    = (match errs with
       | [] => None
       | e :: _ =>
           Some (wrapError
                   ("failed to remove " ++ ObjectName e ++ ": " ++ Error (Err e))
                   (Err e))
       end,
       [call_RemoveObjects (S3Client.bucket s3) keys])).
  { unfold S3Client.Remove. rewrite Hlen. fold errs.
    destruct errs as [|e rest]; [reflexivity|].
    cbn [fold_left]. rewrite first_error_kept.
    unfold fmt_Errorf_w. rewrite !append_assoc'. reflexivity. }
  split; [exact Hs3|].
  split.
  - intros e rest He Hin. rewrite Hs3, He. cbn [fst].
    eexists; split; [reflexivity|]. split; [reflexivity|].
    exists (ObjectName e), (Err e). cbn [Unwrap Error].
    split; [exact Hin|]. split; [reflexivity|]. split.
    + apply strings_Contains_append_r, strings_Contains_prefix, prefix_append.
    + apply strings_Contains_append_r, strings_Contains_append_r,
        strings_Contains_append_r, strings_Contains_prefix, prefix_refl.
  - unfold OSSClient.Remove. rewrite Hlen. reflexivity.
Qed.

Lemma Remove_first_failure_witness :
  let denied := ErrorResponse 403 "Access Denied." in
  let s3 := s3_with None None
              [{| ObjectName := "p/b"; Err := denied |};
               {| ObjectName := "p/c"; Err := errorString "gone" |}] [] in
  let oss := oss_with (false, None) (Some (errorString "connection reset"))
               two_pages in
  S3Client.Remove s3 ["p/a"; "p/b"; "p/c"]
    = (Some (wrapError "failed to remove p/b: Access Denied." denied),
       [call_RemoveObjects "bucket" ["p/a"; "p/b"; "p/c"]]) /\
  OSSClient.Remove oss ["p/a"; "p/b"; "p/c"]
    = (Some (errorString "connection reset"),
       [call_WithTimeout; call_oss_DeleteObjects ["p/a"; "p/b"; "p/c"]]).
Proof.
  intros denied s3 oss.
  destruct (Remove_first_failure s3 oss ["p/a"; "p/b"; "p/c"])
    as (Hs3 & _ & Hoss); [discriminate|].
  split; [exact Hs3 | exact Hoss].
Defined.

(** C2 as stated fails on the OSS adapter: the error of the single delete
    request comes back as it is, and neither wraps a cause nor names a
    key. *)
Lemma OSS_Remove_error_names_no_key :
  let oss := oss_with (false, None) (Some (errorString "connection reset"))
               two_pages in
  fst (OSSClient.Remove oss ["objclient/test"])
    = Some (errorString "connection reset") /\
  strings_Contains (Error (errorString "connection reset")) "objclient/test"
    = false /\
  ~ names_key_and_cause ["objclient/test"] (errorString "connection reset").
Proof.
  split; [reflexivity|]. split; [reflexivity|].
  intros (k & cause & _ & Hun & _). discriminate.
Qed.

(** *** List *)

Lemma fold_snoc {A B : Type} (f : A -> B) (l : list A) : forall init,
  fold_left (fun (acc : list B) x => (acc ++ [f x])%list) l init
    = (init ++ map f l)%list.
Proof.
  induction l as [|x l IH]; intros init; cbn [fold_left map].
  - now rewrite app_nil_r.
  - rewrite IH, <- app_assoc. reflexivity.
Qed.

Lemma S3_List_fold_clean (objs : list minio_ObjectInfo) :
  Forall (fun o => obj_Err o = None) objs ->
  forall items err,
    fold_left S3Client.List_step objs (items, err)
      = ((items ++ map S3Client.to_item objs)%list, err).
Proof.
  induction 1 as [|o objs Ho _ IH]; intros items err; cbn [fold_left map].
  - now rewrite app_nil_r.
  - unfold S3Client.List_step at 2. rewrite Ho, IH, <- app_assoc. reflexivity.
Qed.

Lemma S3_List_fold_failed (objs : list minio_ObjectInfo) :
  forall items e0,
  exists items' e,
    fold_left S3Client.List_step objs (items, Some e0) = (items', Some e) /\
    (e = e0 \/ In (Some e) (map obj_Err objs)).
Proof.
  induction objs as [|o objs IH]; intros items e0; cbn [fold_left map].
  - exists items, e0. split; [reflexivity | now left].
  - unfold S3Client.List_step at 2.
    destruct (obj_Err o) as [e1|] eqn:Eo.
    + destruct (IH items e1) as (items' & e & Hf & [He|Hin]);
        exists items', e; (split; [exact Hf|]); right; cbn;
        [left; congruence | right; exact Hin].
    + destruct (IH (items ++ [S3Client.to_item o])%list e0)
        as (items' & e & Hf & [He|Hin]);
        exists items', e; (split; [exact Hf|]);
        [left; exact He | right; cbn; right; exact Hin].
Qed.

Lemma S3_List_fold_error (objs : list minio_ObjectInfo) :
  Exists (fun o => obj_Err o <> None) objs ->
  forall items err,
  exists items' e,
    fold_left S3Client.List_step objs (items, err) = (items', Some e) /\
    In (Some e) (map obj_Err objs).
Proof.
  induction 1 as [o objs Ho | o objs _ IH]; intros items err;
    cbn [fold_left map].
  - unfold S3Client.List_step at 2.
    destruct (obj_Err o) as [e1|] eqn:Eo; [|contradiction].
    destruct (S3_List_fold_failed objs items e1)
      as (items' & e & Hf & [He|Hin]);
      exists items', e; (split; [exact Hf|]); cbn;
      [left; congruence | right; exact Hin].
  - destruct (IH (fst (S3Client.List_step (items, err) o))
                 (snd (S3Client.List_step (items, err) o)))
      as (items' & e & Hf & Hin).
    rewrite <- surjective_pairing in Hf.
    exists items', e; split; [exact Hf | cbn; right; exact Hin].
Qed.

Lemma bind_emit {A : Type} (c : call) (m : M A) :
  bind (emit c) (fun _ => m) = (fst m, c :: snd m).
Proof. destruct m; reflexivity. Qed.

Section OSSListFacts.
Import OSSClient.

Lemma items_of_cons page pages :
  items_of (page :: pages)
    = (map to_item (Objects page) ++ items_of pages)%list.
Proof. reflexivity. Qed.

Lemma items_of_concat pages :
  items_of pages = map to_item (concat (map Objects pages)).
Proof.
  induction pages as [|page pages IH]; [reflexivity|].
  rewrite items_of_cons, IH. cbn [map concat]. now rewrite map_app.
Qed.

(** The loop fetches exactly the pages that the provider serves. *)
Lemma List_loop_served fuel : forall client opts items token,
  match served fuel (bucket client) opts token with
  | Some (pages, None) =>
      List_loop fuel client opts items token
        = (Some ((items ++ items_of pages)%list, None),
           requests opts token pages)
  | Some (pages, Some e) =>
      fst (List_loop fuel client opts items token) = Some ([], Some e)
  | None => fst (List_loop fuel client opts items token) = None
  end.
Proof.
  induction fuel as [|fuel IH]; intros client opts items token;
    cbn [served List_loop]; [reflexivity|].
  rewrite bind_emit.
  destruct (oss_ListObjectsV2 (bucket client)
              (opts ++ [oss_ContinuationToken token])) as [page|err];
    [|reflexivity].
  rewrite fold_snoc.
  destruct (IsTruncated page) eqn:Etr; cbn [negb].
  - specialize (IH client opts (items ++ map to_item (Objects page))%list
                   (NextContinuationToken page)).
    destruct (served fuel (bucket client) opts (NextContinuationToken page))
      as [[pages [e|]]|]; cbn [fst snd]; try exact IH.
    rewrite IH. cbn [fst snd requests].
    rewrite items_of_cons, app_assoc. reflexivity.
  - cbn [fst snd ret requests]. rewrite items_of_cons.
    unfold items_of. cbn [map concat]. rewrite app_nil_r. reflexivity.
Qed.

(** More fuel does not change what is served. *)
Lemma served_mono fuel : forall b opts token r fuel',
  served fuel b opts token = Some r -> (fuel <= fuel')%nat ->
  served fuel' b opts token = Some r.
Proof.
  induction fuel as [|fuel IH]; intros b opts token r fuel' Hs Hle;
    [discriminate|].
  destruct fuel' as [|fuel']; [lia|].
  cbn [served] in *.
  destruct (oss_ListObjectsV2 b (opts ++ [oss_ContinuationToken token]))
    as [page|err]; [|exact Hs].
  destruct (IsTruncated page); [|exact Hs].
  destruct (served fuel b opts (NextContinuationToken page)) as [r'|] eqn:Er;
    [|discriminate].
  rewrite (IH b opts _ r' fuel' Er) by lia. exact Hs.
Qed.

(** The served pages are truncated, except the last one. *)
Lemma served_shape fuel : forall b opts token pages,
  served fuel b opts token = Some (pages, None) ->
  exists init final,
    pages = (init ++ [final])%list /\
    Forall (fun p => IsTruncated p = true) init /\
    IsTruncated final = false.
Proof.
  induction fuel as [|fuel IH]; intros b opts token pages Hs;
    [discriminate|].
  cbn [served] in Hs.
  destruct (oss_ListObjectsV2 b (opts ++ [oss_ContinuationToken token]))
    as [page|err]; [|discriminate].
  destruct (IsTruncated page) eqn:Etr.
  - destruct (served fuel b opts (NextContinuationToken page))
      as [[pages' [e|]]|] eqn:Er; try discriminate.
    injection Hs as <-.
    destruct (IH _ _ _ _ Er) as (init & final & -> & Hinit & Hfinal).
    exists (page :: init), final.
    split; [reflexivity|]. split; [constructor; assumption | exact Hfinal].
  - injection Hs as <-. exists [], page.
    split; [reflexivity|]. split; [constructor | exact Etr].
Qed.

(** Each served page is the answer to the request that carries the
    token of the page before it. *)
Lemma served_answers fuel : forall b opts token pages,
  served fuel b opts token = Some (pages, None) ->
  Forall2 (fun c page =>
             exists o, c = call_oss_ListObjectsV2 o /\
                       oss_ListObjectsV2 b o = inl page)
          (requests opts token pages) pages.
Proof.
  induction fuel as [|fuel IH]; intros b opts token pages Hs;
    [discriminate|].
  cbn [served] in Hs.
  destruct (oss_ListObjectsV2 b (opts ++ [oss_ContinuationToken token]))
    as [page|err] eqn:Eans; [|discriminate].
  destruct (IsTruncated page) eqn:Etr.
  - destruct (served fuel b opts (NextContinuationToken page))
      as [[pages' [e|]]|] eqn:Er; try discriminate.
    injection Hs as <-. cbn [requests].
    constructor; [eexists; split; [reflexivity | exact Eans]|].
    now apply IH.
  - injection Hs as <-. cbn [requests].
    constructor; [eexists; split; [reflexivity | exact Eans] | constructor].
Qed.

Lemma List_loop_error_no_items fuel : forall client opts items0 token items e,
  fst (List_loop fuel client opts items0 token) = Some (items, Some e) ->
  items = [].
Proof.
  induction fuel as [|fuel IH]; intros client opts items0 token items e;
    cbn [List_loop]; [discriminate|].
  rewrite bind_emit. cbn [fst].
  destruct (oss_ListObjectsV2 (bucket client)
              (opts ++ [oss_ContinuationToken token])) as [page|err].
  - destruct (IsTruncated page); cbn [negb]; [apply IH | discriminate].
  - cbn. intros H. now injection H as <- _.
Qed.

End OSSListFacts.

(** C6: a listing that meets an error returns no items together with the
    error.  On S3 the loop drains the channel, keeps the error of an
    entry that carries one, and at the end drops the items collected; on
    OSS the failed page request ends the call at once, and the pages
    collected before it are dropped. *)
Theorem List_error_returns_no_items
  (s3 : S3Client.t) (oss : OSSClient.t) (prefix : string) (fuel : nat) :
  let objs :=
    ListObjects (S3Client.backend s3) (S3Client.bucket s3) prefix true in
  (Exists (fun o => obj_Err o <> None) objs ->
   exists e, fst (S3Client.List s3 prefix) = ([], Some e) /\
             In (Some e) (map obj_Err objs)) /\
  (forall items e,
     fst (S3Client.List s3 prefix) = (items, Some e) -> items = []) /\
  (forall pages e,
     OSSClient.served fuel (OSSClient.bucket oss)
       (OSSClient.List_opts prefix) "" = Some (pages, Some e) ->
     fst (OSSClient.List fuel oss prefix) = Some ([], Some e)) /\
  (forall items e,
     fst (OSSClient.List fuel oss prefix) = Some (items, Some e) ->
     items = []).
Proof.
  intros objs. split; [|split; [|split]].
  - intros Hex.
    destruct (S3_List_fold_error objs Hex [] None) as (items' & e & Hf & Hin).
    exists e. split; [|exact Hin].
    unfold S3Client.List. rewrite bind_emit. fold objs. rewrite Hf. reflexivity.
  - intros items e. unfold S3Client.List. rewrite bind_emit. fold objs.
    destruct (fold_left S3Client.List_step objs ([], None)) as [items' [e'|]];
      cbn; intros H; [now injection H as <- _ | discriminate].
  - intros pages e Hs. unfold OSSClient.List.
    pose proof (List_loop_served fuel oss (OSSClient.List_opts prefix) [] "")
      as H.
    rewrite Hs in H. exact H.
  - intros items e. apply List_loop_error_no_items.
Qed.

Lemma List_error_returns_no_items_witness :
  let listed :=
    [{| obj_Key := "p/a"; obj_Size := 1; obj_LastModified := 0;
        obj_UserMetadata := ∅; obj_Err := None |};
     {| obj_Key := ""; obj_Size := 0; obj_LastModified := 0;
        obj_UserMetadata := ∅; obj_Err := Some (errorString "timeout") |};
     {| obj_Key := "p/c"; obj_Size := 3; obj_LastModified := 0;
        obj_UserMetadata := ∅; obj_Err := None |}] in
  (exists e, fst (S3Client.List (s3_with None None [] listed) "p/")
             = ([], Some e)) /\
  fst (OSSClient.List 3 (oss_with (false, None) None broken_pages) "p/")
    = Some ([], Some (errorString "connection reset")).
Proof.
  intros listed.
  destruct (List_error_returns_no_items (s3_with None None [] listed)
              (oss_with (false, None) None broken_pages) "p/" 3)
    as (Hs3 & _ & Hoss & _).
  split.
  - destruct Hs3 as (e & He & _).
    + apply Exists_cons_tl, Exists_cons_hd. discriminate.
    + exists e. exact He.
  - apply (Hoss [{| Objects := [obj "p/a" 1; obj "p/b" 2];
                    IsTruncated := true; NextContinuationToken := "t1" |}]).
    reflexivity.
Defined.

(** C7: the OSS [List] asks for pages of 1000 keys, starts without a
    token, passes the token of each page to the next request, and stops
    at the first page that is not truncated: whenever the provider serves
    a chain of pages that ends, the call returns, in order, the items of
    all of these pages, and the requests it issued are the ones that
    fetch them. *)
Theorem OSS_List_concatenates_pages
  (fuel : nat) (client : OSSClient.t) (prefix : string)
  (pages : list ListObjectsResultV2) :
  OSSClient.served fuel (OSSClient.bucket client)
    (OSSClient.List_opts prefix) "" = Some (pages, None) ->
  OSSClient.List_opts prefix
    = [oss_WithContext; oss_Prefix prefix; oss_MaxKeys 1000] /\
  (forall fuel', (fuel <= fuel')%nat ->
     OSSClient.List fuel' client prefix
       = (Some (OSSClient.items_of pages, None),
          OSSClient.requests (OSSClient.List_opts prefix) "" pages)) /\
  OSSClient.items_of pages
    = map OSSClient.to_item (concat (map Objects pages)) /\
  (exists init final,
     pages = (init ++ [final])%list /\
     Forall (fun p => IsTruncated p = true) init /\
     IsTruncated final = false) /\
  Forall2 (fun c page =>
             exists o, c = call_oss_ListObjectsV2 o /\
                       oss_ListObjectsV2 (OSSClient.bucket client) o = inl page)
          (OSSClient.requests (OSSClient.List_opts prefix) "" pages) pages.
Proof.
  intros Hs. split; [reflexivity|]. split.
  { intros fuel' Hle. unfold OSSClient.List.
    pose proof (List_loop_served fuel' client (OSSClient.List_opts prefix) [] "")
      as H.
    rewrite (served_mono _ _ _ _ _ fuel' Hs Hle) in H. exact H. }
  split; [apply items_of_concat|].
  split; [exact (served_shape fuel _ _ _ _ Hs) | exact (served_answers fuel _ _ _ _ Hs)].
Qed.

Lemma OSS_List_concatenates_pages_witness :
  OSSClient.List 5 (oss_with (false, None) None two_pages) "p/"
    = (Some ([{| item_Key := "p/a"; item_Size := 1; item_LastModified := 0 |};
              {| item_Key := "p/b"; item_Size := 2; item_LastModified := 0 |};
              {| item_Key := "p/c"; item_Size := 3; item_LastModified := 0 |}],
             None),
       [call_oss_ListObjectsV2
          [oss_WithContext; oss_Prefix "p/"; oss_MaxKeys 1000;
           oss_ContinuationToken ""];
        call_oss_ListObjectsV2
          [oss_WithContext; oss_Prefix "p/"; oss_MaxKeys 1000;
           oss_ContinuationToken "t1"]]).
Proof.
  destruct (OSS_List_concatenates_pages 2
              (oss_with (false, None) None two_pages) "p/"
              [{| Objects := [obj "p/a" 1; obj "p/b" 2];
                  IsTruncated := true; NextContinuationToken := "t1" |};
               {| Objects := [obj "p/c" 3];
                  IsTruncated := false; NextContinuationToken := "" |}])
    as (_ & Hlist & _); [reflexivity|].
  rewrite (Hlist 5%nat) by lia. reflexivity.
Defined.

(** ** Further properties of the package *)

(** X1: the two literals override the default, and every other string
    gives the default: "true" is true and "false" is false under either
    default, and a string that is neither gives back [defaults]. *)
Theorem stringToBool_literal_or_default (s : string) (defaults : bool) :
  (s = "true" -> stringToBool s defaults = true) /\
  (s = "false" -> stringToBool s defaults = false) /\
  (s <> "true" -> s <> "false" -> stringToBool s defaults = defaults).
Proof.
  unfold stringToBool. split; [|split].
  - intros ->. destruct defaults; reflexivity.
  - intros ->. destruct defaults; reflexivity.
  - intros Ht Hf. apply String.eqb_neq in Ht, Hf.
    rewrite Ht, Hf. destruct defaults; reflexivity.
Qed.

Lemma stringToBool_literal_or_default_witness :
  stringToBool "true" false = true /\
  stringToBool "false" true = false /\
  stringToBool "yes" false = false /\
  stringToBool "" true = true.
Proof.
  split; [apply (stringToBool_literal_or_default "true" false); reflexivity|].
  split; [apply (stringToBool_literal_or_default "false" true); reflexivity|].
  split; [apply (stringToBool_literal_or_default "yes" false); discriminate|].
  apply (stringToBool_literal_or_default "" true); discriminate.
Defined.

(** *** The watchdog over whole transfers *)

Section TransferFacts.
Import TimeoutReader.

Lemma act_fields rd a :
  c (act rd a) = c rd /\
  cancels (act rd a) = (cancels rd + Transfer.closes [a])%nat /\
  c_closes (act rd a)
    = (c_closes rd
       + match c rd with Some _ => Transfer.closes [a] | None => 0 end)%nat.
Proof.
  destruct a as [n e|]; cbn.
  - destruct (c rd); repeat split; lia.
  - destruct (c rd); cbn; repeat split; lia.
Qed.

Lemma closes_cons a l :
  Transfer.closes (a :: l) = (Transfer.closes [a] + Transfer.closes l)%nat.
Proof. cbn. destruct (is_close a); reflexivity. Qed.

Lemma closes_app l1 l2 :
  Transfer.closes (l1 ++ l2) = (Transfer.closes l1 + Transfer.closes l2)%nat.
Proof.
  induction l1 as [|a l1 IH]; [reflexivity|].
  rewrite <- app_comm_cons, (closes_cons a (l1 ++ l2)), (closes_cons a l1), IH.
  lia.
Qed.

Lemma acts_fields l : forall rd,
  c (acts rd l) = c rd /\
  cancels (acts rd l) = (cancels rd + Transfer.closes l)%nat /\
  c_closes (acts rd l)
    = (c_closes rd
       + match c rd with Some _ => Transfer.closes l | None => 0 end)%nat.
Proof.
  induction l as [|a l IH]; intros rd.
  - cbn. destruct (c rd); repeat split; lia.
  - rewrite acts_cons, (closes_cons a l).
    destruct (IH (act rd a)) as (Hc & Hk & Hcc).
    destruct (act_fields rd a) as (Hc1 & Hk1 & Hcc1).
    rewrite Hc, Hk, Hcc, Hc1, Hk1, Hcc1.
    destruct (c rd); repeat split; lia.
Qed.

Lemma timer_swap_fields rd :
  c (snd (timer_swap rd)) = c rd /\
  closed (snd (timer_swap rd)) = closed rd /\
  readed (snd (timer_swap rd)) = 0 /\
  c_closes (snd (timer_swap rd)) = c_closes rd /\
  cancels (snd (timer_swap rd))
    = (cancels rd
       + match fst (timer_swap rd) with ReturnedCancel => 1 | _ => 0 end)%nat.
Proof.
  unfold timer_swap. destruct (readed rd =? 0); cbn; repeat split; lia.
Qed.

Lemma run_interval_fields ts rd iv :
  let r := run_interval (ts, rd) iv in
  c (snd r) = c rd /\
  cancels (snd r)
    = (cancels rd + Transfer.closes (before iv ++ between iv)
       + Transfer.stalled ts (fst r))%nat /\
  c_closes (snd r)
    = (c_closes rd
       + match c rd with
         | Some _ => Transfer.closes (before iv ++ between iv)
         | None => 0
         end)%nat /\
  (ts <> Running -> fst r = ts).
Proof.
  cbv zeta. unfold run_interval. rewrite <- acts_app.
  destruct (acts_fields (before iv ++ between iv) rd) as (Hc & Hk & Hcc).
  destruct ts.
  - destruct (closed (acts rd (before iv))).
    + cbn [fst snd Transfer.stalled]. rewrite Hc, Hk, Hcc.
      repeat split; try lia; congruence.
    + destruct (timer_swap_fields (acts rd (before iv ++ between iv)))
        as (Hc' & _ & _ & Hcc' & Hk').
      rewrite Hc', Hk', Hcc', Hc, Hk, Hcc.
      repeat split; try congruence.
      all: destruct (fst (timer_swap _)); cbn [Transfer.stalled]; lia.
  - cbn [fst snd Transfer.stalled]. rewrite Hc, Hk, Hcc.
    repeat split; try lia; congruence.
  - cbn [fst snd Transfer.stalled]. rewrite Hc, Hk, Hcc.
    repeat split; try lia; congruence.
Qed.

Lemma run_cons s iv sched : run s (iv :: sched) = run (run_interval s iv) sched.
Proof. reflexivity. Qed.

Lemma run_app s sched1 sched2 :
  run s (sched1 ++ sched2) = run (run s sched1) sched2.
Proof. apply fold_left_app. Qed.

Lemma stalled_trans ts ts1 ts2 :
  (ts <> Running -> ts1 = ts) -> (ts1 <> Running -> ts2 = ts1) ->
  Transfer.stalled ts ts2 = (Transfer.stalled ts ts1 + Transfer.stalled ts1 ts2)%nat.
Proof.
  intros H1 H2. destruct ts.
  - destruct ts1; [reflexivity | |]; rewrite H2 by discriminate; reflexivity.
  - rewrite H1 in * by discriminate. rewrite H2 by discriminate. reflexivity.
  - rewrite H1 in * by discriminate. rewrite H2 by discriminate. reflexivity.
Qed.

Lemma run_fields sched : forall ts rd,
  let r := run (ts, rd) sched in
  c (snd r) = c rd /\
  cancels (snd r)
    = (cancels rd + Transfer.sched_closes sched + Transfer.stalled ts (fst r))%nat /\
  c_closes (snd r)
    = (c_closes rd
       + match c rd with
         | Some _ => Transfer.sched_closes sched
         | None => 0
         end)%nat.
Proof.
  induction sched as [|iv sched IH]; intros ts rd; cbv zeta.
  - cbn. destruct ts, (c rd); cbn; repeat split; lia.
  - rewrite run_cons.
    destruct (run_interval_fields ts rd iv) as (Hc1 & Hk1 & Hcc1 & Hts1).
    cbv zeta in Hc1, Hk1, Hcc1, Hts1.
    destruct (run_interval (ts, rd) iv) as [ts1 rd1] eqn:E1.
    cbn [fst snd] in *.
    destruct (IH ts1 rd1) as (Hc & Hk & Hcc). cbv zeta in Hc, Hk, Hcc.
    assert (Habs : ts1 <> Running -> fst (run (ts1, rd1) sched) = ts1)
      by apply run_returned.
    rewrite (stalled_trans ts ts1 _ Hts1 Habs).
    rewrite Hc, Hk, Hcc, Hc1, Hk1, Hcc1.
    change (Transfer.sched_closes (iv :: sched))
      with (Transfer.closes (before iv) + Transfer.closes (between iv)
            + Transfer.sched_closes sched)%nat.
    rewrite closes_app.
    destruct (c rd); repeat split; lia.
Qed.

Lemma quiet_no_close (l : list action) (P : action -> Prop) :
  Forall (fun a => is_close a = false /\ P a) l ->
  existsb is_close l = false /\ Transfer.closes l = 0%nat.
Proof.
  induction 1 as [|a l [Ha _] _ [IH1 IH2]]; [split; reflexivity|].
  cbn. rewrite Ha, IH1. split; [reflexivity | exact IH2].
Qed.

Lemma idle_no_bytes (l : list action) :
  Forall (fun a => is_close a = false /\ bytes_of a = 0) l -> bytes_read l = 0.
Proof.
  induction 1 as [|a l [_ Ha] _ IH]; [reflexivity|].
  rewrite bytes_read_cons. lia.
Qed.

(** A period without [Close] leaves the flag, the counters of calls and
    the closer as they are; the byte counter, zero at the start, holds the
    bytes of the period at the swap. *)
Lemma quiet_interval rd iv (P : action -> Prop) :
  closed rd = false -> readed rd = 0 ->
  Forall (fun a => is_close a = false /\ P a) (before iv ++ between iv) ->
  run_interval (Running, rd) iv
    = timer_swap
        (mk (c rd) (wrap64 (bytes_read (before iv ++ between iv))) false
            (cancels rd) (c_closes rd)).
Proof.
  intros Hcl Hr Hq. unfold run_interval.
  destruct (quiet_no_close _ P Hq) as [Hex Hn].
  rewrite existsb_app in Hex. apply orb_false_iff in Hex as [Hex1 _].
  rewrite acts_closed, Hcl, Hex1. cbn [orb].
  rewrite <- acts_app. f_equal.
  destruct (acts_fields (before iv ++ between iv) rd) as (Hc & Hk & Hcc).
  pose proof (acts_closed (before iv ++ between iv) rd) as Hcl2.
  pose proof (acts_readed (before iv ++ between iv) rd) as Hr2.
  rewrite Hr in Hr2. specialize (Hr2 ltac:(unfold in_int64; lia)).
  rewrite Z.add_0_l in Hr2.
  destruct (quiet_no_close _ P Hq) as [Hex' _].
  rewrite Hcl, Hex' in Hcl2. rewrite Hn in Hk, Hcc.
  destruct (acts rd (before iv ++ between iv)) as [c' r' cl' k' cc'].
  cbn in *. subst. f_equal; [lia|]. destruct (c rd); lia.
Qed.

Lemma run_active sched : forall rd,
  closed rd = false -> readed rd = 0 -> Forall Transfer.active sched ->
  run (Running, rd) sched
    = (Running, mk (c rd) 0 false (cancels rd) (c_closes rd)).
Proof.
  induction sched as [|iv sched IH]; intros rd Hcl Hr Hact.
  - destruct rd; cbn in *; subst; reflexivity.
  - inversion Hact as [|? ? [Hq Hb] Hrest]; subst.
    rewrite run_cons, (quiet_interval rd iv _ Hcl Hr Hq).
    rewrite wrap64_id by (unfold in_int64; lia).
    unfold timer_swap. cbn [readed c closed cancels c_closes].
    destruct (Z.eqb_spec (bytes_read (before iv ++ between iv)) 0) as [E|_];
      [lia|].
    rewrite IH by (reflexivity || exact Hrest). reflexivity.
Qed.

End TransferFacts.

(** X2: the timer never cancels a transfer that keeps moving.  From a
    reader that is not closed and whose counter is zero, over any number
    of periods in each of which some bytes are read and [Close] is not
    called, the timer is still in its loop, the cancel function has not
    been invoked, and the counter is back at zero. *)
Theorem TimeoutReader_active_not_cancelled
  (sched : list TimeoutReader.interval) (rd : TimeoutReader.t) :
  TimeoutReader.closed rd = false -> TimeoutReader.readed rd = 0 ->
  Forall Transfer.active sched ->
  TimeoutReader.run (TimeoutReader.Running, rd) sched
    = (TimeoutReader.Running,
       TimeoutReader.mk (TimeoutReader.c rd) 0 false
         (TimeoutReader.cancels rd) (TimeoutReader.c_closes rd)).
Proof. intros Hcl Hr Hact. now apply run_active. Qed.

Lemma TimeoutReader_active_not_cancelled_witness :
  let chunk := {| TimeoutReader.before := [TimeoutReader.ActRead 4096 None];
                  TimeoutReader.between := [TimeoutReader.ActRead 1 None] |} in
  TimeoutReader.run
    (TimeoutReader.Running, TimeoutReader.newTimeoutReader None)
    [chunk; chunk; chunk]
  = (TimeoutReader.Running, TimeoutReader.mk None 0 false 0 0).
Proof.
  intros chunk.
  apply (TimeoutReader_active_not_cancelled [chunk; chunk; chunk]
           (TimeoutReader.newTimeoutReader None)); [reflexivity | reflexivity |].
  assert (Hchunk : Transfer.active chunk).
  { split; [|vm_compute; split; reflexivity].
    repeat constructor; vm_compute; discriminate. }
  do 3 (constructor; [exact Hchunk|]). constructor.
Defined.

(** X3: who invokes the cancel function, over any schedule.  The
    invocations at the end are those at the start, plus one for each call
    of [Close], plus one if the timer left its loop through the
    cancelling return, which it does at most once; the auxiliary closer
    is called once per [Close] when there is one, and never by the
    timer. *)
Theorem TimeoutReader_cancel_accounting
  (sched : list TimeoutReader.interval)
  (ts : TimeoutReader.timer_state) (rd : TimeoutReader.t) :
  let r := TimeoutReader.run (ts, rd) sched in
  TimeoutReader.c (snd r) = TimeoutReader.c rd /\
  TimeoutReader.cancels (snd r)
    = (TimeoutReader.cancels rd + Transfer.sched_closes sched
       + Transfer.stalled ts (fst r))%nat /\
  (Transfer.stalled ts (fst r) <= 1)%nat /\
  TimeoutReader.c_closes (snd r)
    = (TimeoutReader.c_closes rd
       + match TimeoutReader.c rd with
         | Some _ => Transfer.sched_closes sched
         | None => 0
         end)%nat.
Proof.
  intros r. destruct (run_fields sched ts rd) as (Hc & Hk & Hcc).
  fold r in Hc, Hk, Hcc.
  split; [exact Hc|]. split; [exact Hk|]. split; [|exact Hcc].
  destruct ts, (fst r); cbn; lia.
Qed.

(** X4: a stall is detected at the first period without bytes.  After
    any number of periods with bytes, one period in which no byte is read
    (reads of zero bytes included) and [Close] is not called makes the
    timer invoke the cancel function, once, and leave its loop. *)
Theorem TimeoutReader_stall_detected
  (sched : list TimeoutReader.interval) (iv : TimeoutReader.interval)
  (rd : TimeoutReader.t) :
  TimeoutReader.closed rd = false -> TimeoutReader.readed rd = 0 ->
  Forall Transfer.active sched -> Transfer.idle iv ->
  TimeoutReader.run (TimeoutReader.Running, rd) (sched ++ [iv])
    = (TimeoutReader.ReturnedCancel,
       TimeoutReader.mk (TimeoutReader.c rd) 0 false
         (S (TimeoutReader.cancels rd)) (TimeoutReader.c_closes rd)).
Proof.
  intros Hcl Hr Hact Hidle.
  rewrite run_app, (run_active sched rd Hcl Hr Hact).
  change (TimeoutReader.run ?s [iv]) with (TimeoutReader.run_interval s iv).
  rewrite (quiet_interval
             (TimeoutReader.mk (TimeoutReader.c rd) 0 false
                (TimeoutReader.cancels rd) (TimeoutReader.c_closes rd))
             iv _ eq_refl eq_refl Hidle).
  rewrite (idle_no_bytes _ Hidle). reflexivity.
Qed.

Lemma TimeoutReader_stall_detected_witness :
  let chunk := {| TimeoutReader.before := [TimeoutReader.ActRead 4096 None];
                  TimeoutReader.between := [] |} in
  let stuck := {| TimeoutReader.before := [TimeoutReader.ActRead 0 None];
                  TimeoutReader.between := [] |} in
  TimeoutReader.run
    (TimeoutReader.Running, TimeoutReader.newTimeoutReader None)
    [chunk; chunk; stuck]
  = (TimeoutReader.ReturnedCancel, TimeoutReader.mk None 0 false 1 0).
Proof.
  intros chunk stuck.
  apply (TimeoutReader_stall_detected [chunk; chunk] stuck
           (TimeoutReader.newTimeoutReader None)); [reflexivity | reflexivity | |].
  - assert (Hchunk : Transfer.active chunk).
    { split; [|vm_compute; split; reflexivity].
      repeat constructor; vm_compute; discriminate. }
    do 2 (constructor; [exact Hchunk|]). constructor.
  - repeat constructor.
Defined.

(** *** The S3 constructor *)

(** [NewS3Client], branch by branch. *)
Lemma NewS3Client_cases (sdk : minio_SDK) (config : S3Config) :
  let v4 := stringToBool (V4Signature config) false in
  let https := stringToBool (HTTPS config) true in
  let region :=
    if v4 && String.eqb (Region config) "" then "us-east-1" else Region config in
  let endpoint :=
    if String.eqb (Endpoint config) ""
    then if negb (String.eqb region "")
         then "s3." ++ region ++ ".amazonaws.com"
         else "s3.amazonaws.com"
    else Endpoint config in
  let opts :=
    {| opt_Region := region;
       opt_Creds := if v4 then NewStaticV4 (KeyID config) (Key config) ""
                    else NewStaticV2 (KeyID config) (Key config) "";
       opt_Secure := https;
       opt_BucketLookup := if stringToBool (PathStyleRequest config) false
                           then BucketLookupPath else BucketLookupDNS |} in
  let connect (sse : option ServerSide) (before : list call) :=
    match minio_New sdk endpoint opts with
    | inr err =>
        (inr (fmt_Errorf_w "failed to create s3 client: " err),
         (before ++ [call_minio_New endpoint opts])%list)
    | inl backend =>
        (inl (S3Client.mk backend (Bucket config) sse),
         (before ++ [call_minio_New endpoint opts])%list)
    end in
  NewS3Client sdk config =
    if String.eqb (SSECKey config) "" then connect None []
    else if negb (String.length (SSECKey config) =? 32)%nat
    then (inr (errors_New "length of SSE-C key must be 32 bytes"), [])
    else if negb v4
    then (inr (errors_New "SSE-C key requires v4 signature"), [])
    else if negb https
    then (inr (errors_New "SSE-C key requires https"), [])
    else match encrypt_NewSSEC sdk (SSECKey config) with
         | inr err =>
             (inr (fmt_Errorf_w "failed to load SSE-C key: " err),
              [call_NewSSEC (SSECKey config)])
         | inl k => connect (Some k) [call_NewSSEC (SSECKey config)]
         end.
Proof.
  cbv zeta. unfold NewS3Client.
  destruct (String.eqb (SSECKey config) ""); cbn [negb].
  { cbn. destruct (minio_New sdk _ _); reflexivity. }
  destruct (String.length (SSECKey config) =? 32)%nat; cbn [negb];
    [|reflexivity].
  destruct (stringToBool (V4Signature config) false); cbn [negb];
    [|reflexivity].
  destruct (stringToBool (HTTPS config) true); cbn [negb]; [|reflexivity].
  destruct (encrypt_NewSSEC sdk (SSECKey config)); [|reflexivity].
  cbn. destruct (minio_New sdk _ _); reflexivity.
Qed.

(** What reaches [minio.New], when it is reached. *)
Lemma NewS3Client_minio_New_args (sdk : minio_SDK) (config : S3Config)
  (ep : string) (o : minio_Options) :
  In (call_minio_New ep o) (snd (NewS3Client sdk config)) ->
  let v4 := stringToBool (V4Signature config) false in
  let region :=
    if v4 && String.eqb (Region config) "" then "us-east-1" else Region config in
  ep = (if String.eqb (Endpoint config) ""
        then if negb (String.eqb region "")
             then "s3." ++ region ++ ".amazonaws.com"
             else "s3.amazonaws.com"
        else Endpoint config) /\
  o = {| opt_Region := region;
         opt_Creds := if v4 then NewStaticV4 (KeyID config) (Key config) ""
                      else NewStaticV2 (KeyID config) (Key config) "";
         opt_Secure := stringToBool (HTTPS config) true;
         opt_BucketLookup := if stringToBool (PathStyleRequest config) false
                             then BucketLookupPath else BucketLookupDNS |}.
Proof.
  rewrite NewS3Client_cases. cbv zeta.
  destruct (String.eqb (SSECKey config) "").
  { destruct (minio_New sdk _ _); cbn [snd app]; intros [H|[]];
      injection H as <- <-; split; reflexivity. }
  destruct (negb _); [intros []|].
  destruct (negb _); [intros []|].
  destruct (negb _); [intros []|].
  destruct (encrypt_NewSSEC sdk (SSECKey config)).
  - destruct (minio_New sdk _ _); cbn [snd app]; intros [H|[H|[]]];
      try discriminate; injection H as <- <-; split; reflexivity.
  - cbn. intros [H|[]]. discriminate.
Qed.

(** X5: which endpoint and region [NewS3Client] hands to [minio.New].  A
    given endpoint is used as it is; a blank one becomes
    "s3.<region>.amazonaws.com", where a blank region is "us-east-1"
    under the v4 signature, and "s3.amazonaws.com" when the region is
    blank and the signature is v2.  The region default under v4 applies
    also when the endpoint is given. *)
Theorem NewS3Client_endpoint_resolution (sdk : minio_SDK) (config : S3Config)
  (ep : string) (o : minio_Options) :
  In (call_minio_New ep o) (snd (NewS3Client sdk config)) ->
  (Endpoint config <> "" -> ep = Endpoint config) /\
  (Endpoint config = "" -> Region config <> "" ->
   ep = "s3." ++ Region config ++ ".amazonaws.com") /\
  (Endpoint config = "" -> Region config = "" ->
   V4Signature config = "true" -> ep = "s3.us-east-1.amazonaws.com") /\
  (Endpoint config = "" -> Region config = "" ->
   V4Signature config <> "true" -> ep = "s3.amazonaws.com") /\
  (Region config <> "" -> opt_Region o = Region config) /\
  (Region config = "" -> V4Signature config = "true" ->
   opt_Region o = "us-east-1") /\
  (Region config = "" -> V4Signature config <> "true" -> opt_Region o = "").
Proof.
  intros Hin. apply NewS3Client_minio_New_args in Hin. cbv zeta in Hin.
  destruct Hin as [-> ->]. cbn [opt_Region].
  pose proof (stringToBool_disabled (V4Signature config)) as Hv4.
  destruct (String.eqb_spec (Endpoint config) "") as [He|He];
    destruct (String.eqb_spec (Region config) "") as [Hr|Hr];
    destruct (stringToBool (V4Signature config) false) eqn:Ev4;
    cbn [andb negb];
    try rewrite Hr; try (apply String.eqb_neq in Hr as Hr'; rewrite Hr');
    cbn [negb String.eqb];
    repeat split; intros; try congruence; try reflexivity;
    try match goal with
        | H : V4Signature config = "true" |- _ => apply Hv4 in H; congruence
        end;
    try (assert (V4Signature config = "true") by (now apply Hv4); congruence).
Qed.

Lemma NewS3Client_endpoint_resolution_witness :
  snd (NewS3Client ssec_sdk (plain_config "" "" "true" "" ""))
    = [call_minio_New "s3.us-east-1.amazonaws.com"
         {| opt_Region := "us-east-1";
            opt_Creds := NewStaticV4 "id" "secret" "";
            opt_Secure := true; opt_BucketLookup := BucketLookupDNS |}] /\
  snd (NewS3Client ssec_sdk (plain_config "" "" "" "" ""))
    = [call_minio_New "s3.amazonaws.com"
         {| opt_Region := "";
            opt_Creds := NewStaticV2 "id" "secret" "";
            opt_Secure := true; opt_BucketLookup := BucketLookupDNS |}] /\
  snd (NewS3Client ssec_sdk (plain_config "" "eu-west-1" "" "" ""))
    = [call_minio_New "s3.eu-west-1.amazonaws.com"
         {| opt_Region := "eu-west-1";
            opt_Creds := NewStaticV2 "id" "secret" "";
            opt_Secure := true; opt_BucketLookup := BucketLookupDNS |}] /\
  snd (NewS3Client ssec_sdk (plain_config "minio.local:9000" "" "true" "" ""))
    = [call_minio_New "minio.local:9000"
         {| opt_Region := "us-east-1";
            opt_Creds := NewStaticV4 "id" "secret" "";
            opt_Secure := true; opt_BucketLookup := BucketLookupDNS |}].
Proof.
  assert (Hone : forall config ep o ep' o',
            snd (NewS3Client ssec_sdk config) = [call_minio_New ep o] ->
            (In (call_minio_New ep o) (snd (NewS3Client ssec_sdk config)) ->
             ep = ep' /\ opt_Region o = opt_Region o') ->
            opt_Creds o = opt_Creds o' -> opt_Secure o = opt_Secure o' ->
            opt_BucketLookup o = opt_BucketLookup o' ->
            snd (NewS3Client ssec_sdk config) = [call_minio_New ep' o']).
  { intros config ep o ep' o' Hlog Hres Hc Hs Hl. rewrite Hlog in *.
    destruct Hres as [-> Hr]; [left; reflexivity|].
    destruct o, o'; cbn in *; subst; reflexivity. }
  split; [|split; [|split]].
  - eapply Hone; [reflexivity | | reflexivity | reflexivity | reflexivity].
    intros Hin.
    destruct (NewS3Client_endpoint_resolution ssec_sdk
                (plain_config "" "" "true" "" "") _ _ Hin)
      as (_ & _ & He & _ & _ & Hr & _).
    split; [apply He; reflexivity | apply Hr; reflexivity].
  - eapply Hone; [reflexivity | | reflexivity | reflexivity | reflexivity].
    intros Hin.
    destruct (NewS3Client_endpoint_resolution ssec_sdk
                (plain_config "" "" "" "" "") _ _ Hin)
      as (_ & _ & _ & He & _ & _ & Hr).
    split; [apply He; (reflexivity || discriminate)
           | apply Hr; (reflexivity || discriminate)].
  - eapply Hone; [reflexivity | | reflexivity | reflexivity | reflexivity].
    intros Hin.
    destruct (NewS3Client_endpoint_resolution ssec_sdk
                (plain_config "" "eu-west-1" "" "" "") _ _ Hin)
      as (_ & He & _ & _ & Hr & _).
    split; [apply He; (reflexivity || discriminate) | apply Hr; discriminate].
  - eapply Hone; [reflexivity | | reflexivity | reflexivity | reflexivity].
    intros Hin.
    destruct (NewS3Client_endpoint_resolution ssec_sdk
                (plain_config "minio.local:9000" "" "true" "" "") _ _ Hin)
      as (He & _ & _ & _ & _ & Hr & _).
    split; [apply He; discriminate | apply Hr; reflexivity].
Defined.

(** X6: which transport, signature and addressing [NewS3Client] hands to
    [minio.New]: the transport is secure unless HTTPS is literally
    "false"; the credentials are v4 exactly when V4Signature is literally
    "true", and v2 otherwise, always with the configured key pair and no
    session token; the lookup is path-style exactly when PathStyleRequest
    is literally "true", and DNS otherwise. *)
Theorem NewS3Client_options (sdk : minio_SDK) (config : S3Config)
  (ep : string) (o : minio_Options) :
  In (call_minio_New ep o) (snd (NewS3Client sdk config)) ->
  (opt_Secure o = true <-> HTTPS config <> "false") /\
  (V4Signature config = "true" ->
   opt_Creds o = NewStaticV4 (KeyID config) (Key config) "") /\
  (V4Signature config <> "true" ->
   opt_Creds o = NewStaticV2 (KeyID config) (Key config) "") /\
  (opt_BucketLookup o = BucketLookupPath <-> PathStyleRequest config = "true") /\
  (opt_BucketLookup o = BucketLookupDNS <-> PathStyleRequest config <> "true").
Proof.
  intros Hin. apply NewS3Client_minio_New_args in Hin. cbv zeta in Hin.
  destruct Hin as [_ ->]. cbn [opt_Secure opt_Creds opt_BucketLookup].
  pose proof (stringToBool_disabled (V4Signature config)) as Hv4.
  pose proof (stringToBool_disabled (PathStyleRequest config)) as Hps.
  split; [apply stringToBool_enabled|].
  split.
  { intros Hv. apply Hv4 in Hv. now rewrite Hv. }
  split.
  { intros Hv. destruct (stringToBool (V4Signature config) false);
      [exfalso; now apply Hv, Hv4 | reflexivity]. }
  destruct (stringToBool (PathStyleRequest config) false).
  - split; split; intros H; try reflexivity; try discriminate.
    + now apply Hps.
    + exfalso. now apply H, Hps.
  - split; split; intros H; try reflexivity; try discriminate.
    + apply Hps in H. discriminate.
    + intros Hp. apply Hps in Hp. discriminate.
Qed.

Lemma NewS3Client_options_witness :
  let o := {| opt_Region := "";
              opt_Creds := NewStaticV2 "id" "secret" "";
              opt_Secure := false; opt_BucketLookup := BucketLookupPath |} in
  snd (NewS3Client ssec_sdk (plain_config "h" "" "TRUE" "false" "true"))
    = [call_minio_New "h" o] /\
  opt_Creds o = NewStaticV2 "id" "secret" "" /\
  opt_BucketLookup o = BucketLookupPath.
Proof.
  intros o. split; [reflexivity|].
  destruct (NewS3Client_options ssec_sdk
              (plain_config "h" "" "TRUE" "false" "true") "h" o)
    as (_ & _ & Hv2 & Hpath & _); [left; reflexivity|].
  split; [apply Hv2; discriminate | apply Hpath; reflexivity].
Defined.

(** X7: a client that [NewS3Client] returns is fully configured.  Its
    backend is the handle that [minio.New] returned, the last request of
    the constructor; its bucket is the configured one; it holds no
    encryption key exactly when none is configured, and then the key
    loader was never called; when it holds one, that is the loaded form
    of the configured key, which is 32 bytes long and comes with the v4
    signature and https. *)
Theorem NewS3Client_client_invariant (sdk : minio_SDK) (config : S3Config)
  (client : S3Client.t) :
  fst (NewS3Client sdk config) = inl client ->
  S3Client.bucket client = Bucket config /\
  (exists ep o,
     minio_New sdk ep o = inl (S3Client.backend client) /\
     last (snd (NewS3Client sdk config)) = Some (call_minio_New ep o)) /\
  (SSECKey config = "" ->
   S3Client.sseckey client = None /\
   exists ep o, snd (NewS3Client sdk config) = [call_minio_New ep o]) /\
  (SSECKey config <> "" ->
   exists k,
     S3Client.sseckey client = Some k /\
     encrypt_NewSSEC sdk (SSECKey config) = inl k /\
     String.length (SSECKey config) = 32%nat /\
     V4Signature config = "true" /\ HTTPS config <> "false").
Proof.
  rewrite NewS3Client_cases. cbv zeta.
  pose proof (stringToBool_disabled (V4Signature config)) as Hv4.
  pose proof (stringToBool_enabled (HTTPS config)) as Hhttps.
  destruct (String.eqb_spec (SSECKey config) "") as [Hk|Hk].
  { destruct (minio_New sdk _ _) as [b|e] eqn:Enew; cbn [fst snd app];
      [|discriminate].
    intros H. injection H as <-. cbn.
    split; [reflexivity|]. split; [eauto|].
    split; [intros _; split; eauto | intros; contradiction]. }
  destruct (Nat.eqb_spec (String.length (SSECKey config)) 32) as [Hlen|Hlen];
    cbn [negb]; [|discriminate].
  destruct (stringToBool (V4Signature config) false); cbn [negb];
    [|discriminate].
  destruct (stringToBool (HTTPS config) true); cbn [negb]; [|discriminate].
  destruct (encrypt_NewSSEC sdk (SSECKey config)) as [k|e]; [|discriminate].
  destruct (minio_New sdk _ _) as [b|e] eqn:Enew; cbn [fst snd app];
    [|discriminate].
  intros H. injection H as <-. cbn.
  split; [reflexivity|]. split; [eauto|].
  split; [intros; contradiction|]. intros _. exists k.
  split; [reflexivity|]. split; [reflexivity|]. split; [exact Hlen|].
  split; [now apply Hv4 | now apply Hhttps].
Qed.

Lemma NewS3Client_client_invariant_witness :
  (exists client,
     fst (NewS3Client ssec_sdk (plain_config "" "" "true" "" "")) = inl client /\
     S3Client.bucket client = "b" /\ S3Client.sseckey client = None) /\
  (exists client,
     fst (NewS3Client ssec_sdk
            (ssec_config "0123456789abcdef0123456789abcdef" "true" ""))
       = inl client /\
     S3Client.sseckey client = Some (SSEC "0123456789abcdef0123456789abcdef")).
Proof.
  split.
  - eexists. split; [reflexivity|].
    destruct (NewS3Client_client_invariant ssec_sdk
                (plain_config "" "" "true" "" "") _ eq_refl)
      as (Hb & _ & Hnone & _).
    split; [exact Hb | apply Hnone; reflexivity].
  - eexists. split; [reflexivity|].
    destruct (NewS3Client_client_invariant ssec_sdk
                (ssec_config "0123456789abcdef0123456789abcdef" "true" "")
                _ eq_refl) as (_ & _ & _ & Hsome).
    destruct Hsome as (k & Hk & Hload & _); [discriminate|].
    rewrite Hk. f_equal. cbn in Hload. now injection Hload as <-.
Defined.

(** X8: the errors of [NewS3Client].  An error is one of the three
    validation errors of the encryption key, returned before any request
    and in the order length, signature, transport; or the failure of the
    key loader, wrapped under "failed to load SSE-C key: " with no handle
    requested; or the failure of [minio.New], wrapped under "failed to
    create s3 client: ". *)
Theorem NewS3Client_errors (sdk : minio_SDK) (config : S3Config) (err : error) :
  fst (NewS3Client sdk config) = inr err ->
  (err = errors_New "length of SSE-C key must be 32 bytes" /\
   String.length (SSECKey config) <> 32%nat /\
   snd (NewS3Client sdk config) = []) \/
  (err = errors_New "SSE-C key requires v4 signature" /\
   String.length (SSECKey config) = 32%nat /\ V4Signature config <> "true" /\
   snd (NewS3Client sdk config) = []) \/
  (err = errors_New "SSE-C key requires https" /\
   String.length (SSECKey config) = 32%nat /\ V4Signature config = "true" /\
   HTTPS config = "false" /\
   snd (NewS3Client sdk config) = []) \/
  (exists cause,
     encrypt_NewSSEC sdk (SSECKey config) = inr cause /\
     err = wrapError ("failed to load SSE-C key: " ++ Error cause) cause /\
     snd (NewS3Client sdk config) = [call_NewSSEC (SSECKey config)]) \/
  (exists cause ep o,
     minio_New sdk ep o = inr cause /\
     err = wrapError ("failed to create s3 client: " ++ Error cause) cause /\
     last (snd (NewS3Client sdk config)) = Some (call_minio_New ep o)).
Proof.
  rewrite NewS3Client_cases. cbv zeta.
  pose proof (stringToBool_disabled (V4Signature config)) as Hv4.
  pose proof (stringToBool_enabled (HTTPS config)) as Hhttps.
  destruct (String.eqb_spec (SSECKey config) "") as [Hk|Hk].
  { destruct (minio_New sdk _ _) as [b|e] eqn:Enew; cbn [fst snd app];
      [discriminate|].
    intros H. injection H as <-. do 4 right.
    eexists _, _, _. split; [exact Enew|]. split; reflexivity. }
  destruct (Nat.eqb_spec (String.length (SSECKey config)) 32) as [Hlen|Hlen];
    cbn [negb].
  2:{ intros H. injection H as <-. left. repeat split. exact Hlen. }
  destruct (stringToBool (V4Signature config) false) eqn:Ev4; cbn [negb].
  2:{ intros H. injection H as <-. right; left. repeat split; [exact Hlen|].
      intros Hv. apply Hv4 in Hv. discriminate. }
  destruct (stringToBool (HTTPS config) true) eqn:Eh; cbn [negb].
  2:{ intros H. injection H as <-. right; right; left.
      repeat split; [exact Hlen | now apply Hv4 |].
      destruct (String.eqb_spec (HTTPS config) "false") as [E|E];
        [exact E|]. apply Hhttps in E. discriminate. }
  destruct (encrypt_NewSSEC sdk (SSECKey config)) as [k|e].
  2:{ intros H. injection H as <-. do 3 right; left.
      exists e. repeat split. }
  destruct (minio_New sdk _ _) as [b|e] eqn:Enew; cbn [fst snd app];
    [discriminate|].
  intros H. injection H as <-. do 4 right.
  eexists _, _, _. split; [exact Enew|]. split; reflexivity.
Qed.

Lemma NewS3Client_errors_witness :
  NewS3Client ssec_sdk
    (ssec_config "0123456789abcdef0123456789abcdef" "false" "false")
    = (inr (errors_New "SSE-C key requires v4 signature"), []) /\
  fst (NewS3Client failing_sdk (plain_config "" "" "" "" ""))
    = inr (wrapError "failed to create s3 client: bad endpoint"
             (errorString "bad endpoint")) /\
  NewS3Client failing_sdk
    (ssec_config "0123456789abcdef0123456789abcdef" "true" "true")
    = (inr (wrapError "failed to load SSE-C key: bad key"
              (errorString "bad key")),
       [call_NewSSEC "0123456789abcdef0123456789abcdef"]).
Proof.
  split; [|split].
  - destruct (NewS3Client_errors ssec_sdk
                (ssec_config "0123456789abcdef0123456789abcdef" "false" "false")
                _ eq_refl)
      as [(_ & H & _) | [(He & _ & _ & Hlog) | [(_ & _ & H & _) | [H | H]]]].
    + exfalso. now apply H.
    + apply injective_projections; [reflexivity | exact Hlog].
    + discriminate.
    + destruct H as (c & H & _). discriminate.
    + destruct H as (c & ep & o & H & _). discriminate.
  - destruct (NewS3Client_errors failing_sdk (plain_config "" "" "" "" "")
                _ eq_refl)
      as [(_ & _ & H) | [(_ & _ & _ & H) | [(_ & _ & _ & _ & H) | [H | H]]]];
      try discriminate.
    + destruct H as (c & _ & _ & H). discriminate.
    + reflexivity.
  - destruct (NewS3Client_errors failing_sdk
                (ssec_config "0123456789abcdef0123456789abcdef" "true" "true")
                _ eq_refl)
      as [(_ & H & _) | [(_ & _ & H & _) | [(_ & _ & _ & H & _) | [H | H]]]].
    + exfalso. now apply H.
    + exfalso. now apply H.
    + discriminate.
    + destruct H as (c & _ & _ & Hlog).
      apply injective_projections; [reflexivity | exact Hlog].
    + destruct H as (c & ep & o & _ & _ & H). discriminate.
Defined.

(** *** The S3 operations *)

(** X9: [Remove] without keys does nothing on either adapter: it returns
    nil and issues no request, where any non-empty list of keys costs
    exactly one batch request. *)
Theorem Remove_no_keys (s3 : S3Client.t) (oss : OSSClient.t)
  (keys : list string) :
  (keys = [] ->
   S3Client.Remove s3 keys = (None, []) /\
   OSSClient.Remove oss keys = (None, [])) /\
  (keys <> [] ->
   snd (S3Client.Remove s3 keys)
     = [call_RemoveObjects (S3Client.bucket s3) keys] /\
   snd (OSSClient.Remove oss keys)
     = [call_WithTimeout; call_oss_DeleteObjects keys]).
Proof.
  split.
  - intros ->. split; reflexivity.
  - intros Hk. unfold S3Client.Remove, OSSClient.Remove.
    destruct keys as [|k keys]; [contradiction|]. split; reflexivity.
Qed.

Lemma Remove_no_keys_witness :
  S3Client.Remove
    (s3_with None None [{| ObjectName := "x"; Err := errorString "e" |}] []) []
    = (None, []) /\
  snd (OSSClient.Remove (oss_with (false, None) None two_pages) ["p/a"])
    = [call_WithTimeout; call_oss_DeleteObjects ["p/a"]].
Proof.
  split.
  - apply (Remove_no_keys
             (s3_with None None [{| ObjectName := "x"; Err := errorString "e" |}] [])
             (oss_with (false, None) None two_pages) []).
    reflexivity.
  - apply (Remove_no_keys (s3_with None None [] [])
             (oss_with (false, None) None two_pages) ["p/a"]).
    discriminate.
Defined.

(** X10: an S3 listing without errors returns one item per object of the
    channel, in the order of the channel, with key, size and modification
    time copied; it asks once, for the client's bucket and the given
    prefix, recursively. *)
Theorem S3_List_all_items (client : S3Client.t) (prefix : string) :
  let objs :=
    ListObjects (S3Client.backend client) (S3Client.bucket client) prefix true in
  Forall (fun o => obj_Err o = None) objs ->
  S3Client.List client prefix
    = ((map S3Client.to_item objs, None),
       [call_ListObjects (S3Client.bucket client) prefix true]) /\
  length (fst (fst (S3Client.List client prefix))) = length objs /\
  map item_Key (fst (fst (S3Client.List client prefix))) = map obj_Key objs.
Proof.
  intros objs Hok.
  assert (H : S3Client.List client prefix
    = ((map S3Client.to_item objs, None),
       [call_ListObjects (S3Client.bucket client) prefix true])).
  { unfold S3Client.List. rewrite bind_emit. fold objs.
    rewrite (S3_List_fold_clean objs Hok). reflexivity. }
  rewrite H. cbn [fst]. split; [reflexivity|].
  split; [apply length_map|].
  rewrite map_map. reflexivity.
Qed.

Lemma S3_List_all_items_witness :
  let listed :=
    [{| obj_Key := "p/a"; obj_Size := 1; obj_LastModified := 7;
        obj_UserMetadata := ∅; obj_Err := None |};
     {| obj_Key := "p/c"; obj_Size := 3; obj_LastModified := 9;
        obj_UserMetadata := ∅; obj_Err := None |}] in
  S3Client.List (s3_with None None [] listed) "p/"
    = (([{| item_Key := "p/a"; item_Size := 1; item_LastModified := 7 |};
         {| item_Key := "p/c"; item_Size := 3; item_LastModified := 9 |}],
        None),
       [call_ListObjects "bucket" "p/" true]).
Proof.
  intros listed.
  apply (S3_List_all_items (s3_with None None [] listed) "p/").
  repeat constructor.
Defined.

(** X11: when several entries of the channel carry an error, the S3
    listing returns the last of them: the loop goes on after an error and
    a later error replaces the earlier one. *)
Theorem S3_List_last_error (client : S3Client.t) (prefix : string)
  (before after : list minio_ObjectInfo) (o : minio_ObjectInfo) (e : error) :
  ListObjects (S3Client.backend client) (S3Client.bucket client) prefix true
    = (before ++ o :: after)%list ->
  obj_Err o = Some e ->
  Forall (fun o' => obj_Err o' = None) after ->
  fst (S3Client.List client prefix) = ([], Some e).
Proof.
  intros Hobjs Ho Hafter.
  unfold S3Client.List. rewrite bind_emit, Hobjs, fold_left_app.
  destruct (fold_left S3Client.List_step before ([], None)) as [items err].
  cbn [fold_left]. unfold S3Client.List_step at 2. rewrite Ho.
  rewrite (S3_List_fold_clean after Hafter). reflexivity.
Qed.

Lemma S3_List_last_error_witness :
  let entry err := {| obj_Key := "k"; obj_Size := 1; obj_LastModified := 0;
                      obj_UserMetadata := ∅; obj_Err := err |} in
  fst (S3Client.List
         (s3_with None None []
            [entry (Some (errorString "first")); entry None;
             entry (Some (errorString "second")); entry None]) "p/")
    = ([], Some (errorString "second")).
Proof.
  intros entry.
  apply (S3_List_last_error
           (s3_with None None []
              [entry (Some (errorString "first")); entry None;
               entry (Some (errorString "second")); entry None]) "p/"
           [entry (Some (errorString "first")); entry None]
           [entry None] (entry (Some (errorString "second")))
           (errorString "second")); [reflexivity | reflexivity |].
  repeat constructor.
Defined.

(** X12: a missing object, seen by [Exist] and by [Info] of the S3
    adapter.  Both issue the same single stat request; on a not-found
    answer (status 404) [Exist] returns [(false, nil)] while [Info]
    returns no info and the error itself, as it does for every error of
    the request. *)
Theorem S3_Info_error_passes (client : S3Client.t) (key : string) (e : error) :
  snd (StatObject (S3Client.backend client) (S3Client.bucket client) key
         (S3Client.sseckey client)) = Some e ->
  S3Client.Info client key
    = ((None, Some e),
       [call_StatObject (S3Client.bucket client) key (S3Client.sseckey client)]) /\
  snd (S3Client.Exist client key) = snd (S3Client.Info client key) /\
  (ToErrorResponse_StatusCode (Some e) = http_StatusNotFound ->
   fst (S3Client.Exist client key) = (false, None)).
Proof.
  intros He. unfold S3Client.Info, S3Client.Exist. rewrite !bind_emit.
  destruct (StatObject (S3Client.backend client) (S3Client.bucket client) key
              (S3Client.sseckey client)) as [stat err].
  cbn [snd] in He. subst err.
  split; [reflexivity|]. split.
  - cbn. destruct (_ =? _); reflexivity.
  - intros H. apply Z.eqb_eq in H. cbn [fst]. now rewrite H.
Qed.

Lemma S3_Info_error_passes_witness :
  let missing := ErrorResponse 404 "The specified key does not exist." in
  fst (S3Client.Info (s3_with None (Some missing) [] []) "objclient/copy")
    = (None, Some missing) /\
  fst (S3Client.Exist (s3_with None (Some missing) [] []) "objclient/copy")
    = (false, None).
Proof.
  intros missing.
  destruct (S3_Info_error_passes (s3_with None (Some missing) [] [])
              "objclient/copy" missing eq_refl) as (Hinfo & _ & Hexist).
  split; [now rewrite Hinfo | apply Hexist; reflexivity].
Defined.

(** *** Lower-cased metadata *)

Lemma lower_ascii_idem (ch : ascii) : lower_ascii (lower_ascii ch) = lower_ascii ch.
Proof.
  destruct ch as [b0 b1 b2 b3 b4 b5 b6 b7].
  destruct b0, b1, b2, b3, b4, b5, b6, b7; reflexivity.
Qed.

Lemma lower_ascii_ASCII (ch : ascii) :
  (nat_of_ascii (lower_ascii ch) <? 128)%nat = (nat_of_ascii ch <? 128)%nat.
Proof.
  destruct ch as [b0 b1 b2 b3 b4 b5 b6 b7].
  destruct b0, b1, b2, b3, b4, b5, b6, b7; reflexivity.
Qed.

Lemma strings_ToLower_ASCII (s : string) :
  is_ASCII (strings_ToLower s) = is_ASCII s.
Proof.
  induction s as [|ch s IH]; [reflexivity|].
  cbn [strings_ToLower is_ASCII]. now rewrite lower_ascii_ASCII, IH.
Qed.

Lemma strings_ToLower_is_lower (s : string) : is_lower (strings_ToLower s).
Proof.
  unfold is_lower. induction s as [|ch s IH]; [reflexivity|].
  cbn [strings_ToLower]. now rewrite lower_ascii_idem, IH.
Qed.

(** Every entry of the lower-cased map comes from an entry of the map. *)
Lemma lowered_from (md : gmap string string) :
  forall k v, S3Client.lowered md !! k = Some v ->
  exists k0, md !! k0 = Some v /\ strings_ToLower k0 = k.
Proof.
  unfold S3Client.lowered.
  apply (map_fold_weak_ind
           (fun (r m : gmap string string) =>
              forall k v, r !! k = Some v ->
              exists k0, m !! k0 = Some v /\ strings_ToLower k0 = k)).
  - intros k v H. rewrite lookup_empty in H. discriminate.
  - intros i x m r Hi IH k v H.
    destruct (decide (strings_ToLower i = k)) as [E|E].
    + subst k. rewrite lookup_insert_eq in H. injection H as ->.
      exists i. split; [apply lookup_insert_eq | reflexivity].
    + rewrite lookup_insert_ne in H by exact E.
      destruct (IH k v H) as (k0 & Hk0 & Hl).
      exists k0. split; [|exact Hl].
      rewrite lookup_insert_ne; [exact Hk0|]. intros ->. congruence.
Qed.

(** When no two keys of the map differ only by case, every entry is found
    under its lower-cased key. *)
Lemma lowered_lookup (md : gmap string string) :
  (forall k1 k2, is_Some (md !! k1) -> is_Some (md !! k2) ->
                 strings_ToLower k1 = strings_ToLower k2 -> k1 = k2) ->
  forall k0 v, md !! k0 = Some v ->
  S3Client.lowered md !! strings_ToLower k0 = Some v.
Proof.
  unfold S3Client.lowered.
  apply (map_fold_weak_ind
           (fun (r m : gmap string string) =>
              (forall k1 k2, is_Some (m !! k1) -> is_Some (m !! k2) ->
                 strings_ToLower k1 = strings_ToLower k2 -> k1 = k2) ->
              forall k0 v, m !! k0 = Some v ->
              r !! strings_ToLower k0 = Some v)).
  - intros _ k0 v H. rewrite lookup_empty in H. discriminate.
  - intros i x m r Hi IH Hinj k0 v H.
    destruct (decide (i = k0)) as [E|E].
    + subst k0. rewrite lookup_insert_eq in H. injection H as ->.
      apply lookup_insert_eq.
    + rewrite lookup_insert_ne in H by exact E.
      rewrite lookup_insert_ne.
      * apply IH; [|exact H].
        intros k1 k2 [v1 H1] [v2 H2]. apply Hinj.
        -- destruct (decide (i = k1)) as [->|N]; [congruence|].
           rewrite lookup_insert_ne by exact N. eauto.
        -- destruct (decide (i = k2)) as [->|N]; [congruence|].
           rewrite lookup_insert_ne by exact N. eauto.
      * intros Hl. apply E, Hinj; [| |exact Hl].
        -- rewrite lookup_insert_eq. eauto.
        -- rewrite lookup_insert_ne by exact E. eauto.
Qed.

(** What the S3 [Info] returns when the stat request succeeds. *)
Lemma S3_Info_lowered (client : S3Client.t) (key : string) (info : ObjectInfo) :
  fst (S3Client.Info client key) = (Some info, None) ->
  let stat := fst (StatObject (S3Client.backend client) (S3Client.bucket client)
                     key (S3Client.sseckey client)) in
  info = {| info_Size := obj_Size stat;
            info_LastModified := obj_LastModified stat;
            info_Metadata := S3Client.lowered (obj_UserMetadata stat) |}.
Proof.
  unfold S3Client.Info. rewrite bind_emit.
  destruct (StatObject (S3Client.backend client) (S3Client.bucket client) key
              (S3Client.sseckey client)) as [stat err].
  destruct err as [e|]; cbn [fst snd ret]; [discriminate|].
  intros H. now injection H as <-.
Qed.

(** X13: the metadata that the S3 [Info] returns, for a stat answer
    whose metadata keys are ASCII.  Size and modification time are those
    of the answer.  Every key of the returned metadata is lower-case, and
    its value is the value of a key of the answer that lower-cases to it;
    when no two keys of the answer differ only by case, every entry of
    the answer is returned under its lower-cased key. *)
Theorem S3_Info_metadata (client : S3Client.t) (key : string) (info : ObjectInfo) :
  fst (S3Client.Info client key) = (Some info, None) ->
  let stat := fst (StatObject (S3Client.backend client) (S3Client.bucket client)
                     key (S3Client.sseckey client)) in
  (forall k0, is_Some (obj_UserMetadata stat !! k0) -> is_ASCII k0 = true) ->
  info_Size info = obj_Size stat /\
  info_LastModified info = obj_LastModified stat /\
  (forall k v, info_Metadata info !! k = Some v ->
     is_lower k /\ is_ASCII k = true /\
     exists k0, obj_UserMetadata stat !! k0 = Some v /\ strings_ToLower k0 = k) /\
  ((forall k1 k2,
      is_Some (obj_UserMetadata stat !! k1) ->
      is_Some (obj_UserMetadata stat !! k2) ->
      strings_ToLower k1 = strings_ToLower k2 -> k1 = k2) ->
   forall k0 v, obj_UserMetadata stat !! k0 = Some v ->
   info_Metadata info !! strings_ToLower k0 = Some v).
Proof.
  intros Hinfo stat Hascii. rewrite (S3_Info_lowered client key info Hinfo).
  fold stat. cbn [info_Size info_LastModified info_Metadata].
  split; [reflexivity|]. split; [reflexivity|]. split.
  - intros k v Hk. destruct (lowered_from _ k v Hk) as (k0 & Hk0 & <-).
    split; [apply strings_ToLower_is_lower|].
    split; [rewrite strings_ToLower_ASCII; apply Hascii; eauto | eauto].
  - apply lowered_lookup.
Qed.

Lemma S3_Info_metadata_witness :
  let stat := {| obj_Key := "k"; obj_Size := 4; obj_LastModified := 11;
                 obj_UserMetadata := {["Foo" := "bar"]}; obj_Err := None |} in
  let client :=
    S3Client.mk
      {| PutObject := fun _ _ _ _ => None;
         StatObject := fun _ _ _ => (stat, None);
         RemoveObjects := fun _ _ => [];
         ListObjects := fun _ _ _ => [] |} "bucket" None in
  exists info,
    fst (S3Client.Info client "k") = (Some info, None) /\
    info_Size info = 4 /\
    info_Metadata info !! "foo" = Some "bar".
Proof.
  intros stat client.
  eexists. split; [reflexivity|].
  destruct (S3_Info_metadata client "k" _ eq_refl) as (Hs & _ & _ & Hall).
  { cbn [fst StatObject S3Client.backend client stat obj_UserMetadata].
    intros k0 [v H]. apply lookup_singleton_Some in H as [<- _]. reflexivity. }
  split; [exact Hs|].
  cbn [fst StatObject S3Client.backend client stat obj_UserMetadata] in Hall.
  apply (Hall ltac:(
    intros k1 k2 [v1 H1] [v2 H2] _;
    apply lookup_singleton_Some in H1 as [<- _];
    apply lookup_singleton_Some in H2 as [<- _]; reflexivity) "Foo" "bar").
  apply lookup_singleton_eq.
Defined.

(** X14: writing metadata and reading it back on S3, for ASCII keys.
    [Write] sends the caller's mapping as it is.  If the stat request
    then answers with the pairs that were sent, each under a key that
    differs from the one sent at most in the case of its letters (the
    SDK answers in the casing of HTTP headers), and no two of the
    caller's keys differ only by case, [Info] returns exactly the
    caller's pairs under the lower-cased keys: the lowering on the way
    back makes up for the one that [Write] leaves out. *)
Theorem S3_Write_then_Info (client : S3Client.t) (key : string)
  (w : WriteOptions) (opts : PutObjectOptions) (info : ObjectInfo)
  (recase : string -> string) :
  In (call_PutObject (S3Client.bucket client) key (Size w) opts)
     (snd (S3Client.Write client key (Some w))) ->
  fst (S3Client.Info client key) = (Some info, None) ->
  let answered :=
    obj_UserMetadata
      (fst (StatObject (S3Client.backend client) (S3Client.bucket client) key
              (S3Client.sseckey client))) in
  (forall k v, put_UserMetadata opts !! k = Some v ->
               answered !! recase k = Some v) ->
  (forall k' v, answered !! k' = Some v ->
                exists k, put_UserMetadata opts !! k = Some v /\ k' = recase k) ->
  (forall k, is_Some (Metadata w !! k) ->
             is_ASCII k = true /\ is_ASCII (recase k) = true /\
             strings_ToLower (recase k) = strings_ToLower k) ->
  (forall k1 k2, is_Some (Metadata w !! k1) -> is_Some (Metadata w !! k2) ->
                 strings_ToLower k1 = strings_ToLower k2 -> k1 = k2) ->
  put_UserMetadata opts = Metadata w /\
  (forall k v, Metadata w !! k = Some v ->
               info_Metadata info !! strings_ToLower k = Some v) /\
  (forall k' v, info_Metadata info !! k' = Some v ->
                exists k, Metadata w !! k = Some v /\ strings_ToLower k = k').
Proof.
  intros Hsent Hinfo answered Hall Honly Hcase Hinj.
  assert (Hopts : put_UserMetadata opts = Metadata w).
  { destruct (Z.eq_dec (Size w) 0) as [Hz|Hz].
    - unfold S3Client.Write in Hsent. rewrite Hz in Hsent. destruct Hsent.
    - rewrite (S3_Write_sends client key w Hz) in Hsent. cbn in Hsent.
      destruct Hsent as [H|[H|[H|[H|[]]]]]; try discriminate.
      now injection H as <-. }
  rewrite Hopts in Hall, Honly.
  rewrite (S3_Info_lowered client key info Hinfo). cbv zeta.
  fold answered. cbn [info_Metadata].
  split; [exact Hopts|]. split.
  - intros k v Hk.
    destruct (Hcase k ltac:(eauto)) as (_ & _ & <-).
    apply lowered_lookup; [|now apply Hall].
    intros k1' k2' [v1 H1] [v2 H2] Hl.
    destruct (Honly _ _ H1) as (k1 & Hk1 & ->).
    destruct (Honly _ _ H2) as (k2 & Hk2 & ->).
    destruct (Hcase k1 ltac:(eauto)) as (_ & _ & E1).
    destruct (Hcase k2 ltac:(eauto)) as (_ & _ & E2).
    rewrite E1, E2 in Hl. f_equal. apply Hinj; eauto.
  - intros k' v Hk'.
    destruct (lowered_from _ k' v Hk') as (k0' & Hk0' & <-).
    destruct (Honly _ _ Hk0') as (k & Hk & ->).
    destruct (Hcase k ltac:(eauto)) as (_ & _ & E).
    exists k. split; [exact Hk | now rewrite E].
Qed.

Lemma S3_Write_then_Info_witness :
  let sent : gmap string string := {["foo" := "bar"]} in
  let answered : gmap string string := {["Foo" := "bar"]} in
  exists info,
    fst (S3Client.Info (s3_echo answered) "objclient/test") = (Some info, None) /\
    info_Metadata info !! "foo" = Some "bar".
Proof.
  intros sent answered.
  exists {| info_Size := 4; info_LastModified := 0;
            info_Metadata := S3Client.lowered answered |}.
  split; [reflexivity|].
  destruct (S3_Write_then_Info (s3_echo answered) "objclient/test"
              {| Size := 4; Metadata := sent |}
              {| put_ServerSideEncryption := None; put_UserMetadata := sent |}
              {| info_Size := 4; info_LastModified := 0;
                 info_Metadata := S3Client.lowered answered |}
              (fun k => if String.eqb k "foo" then "Foo" else k))
    as (_ & Hback & _).
  - rewrite S3_Write_sends by discriminate.
    right; right; left. reflexivity.
  - reflexivity.
  - intros k v H. cbn [put_UserMetadata] in H. unfold sent in H.
    apply lookup_singleton_Some in H as [<- <-]. reflexivity.
  - intros k' v H. cbn in H. unfold answered in H.
    apply lookup_singleton_Some in H as [<- <-].
    exists "foo". split; reflexivity.
  - intros k [v H]. cbn [Metadata] in H. unfold sent in H.
    apply lookup_singleton_Some in H as [<- _]. repeat split.
  - intros k1 k2 [v1 H1] [v2 H2] _. cbn [Metadata] in H1, H2. unfold sent in *.
    apply lookup_singleton_Some in H1 as [<- _].
    apply lookup_singleton_Some in H2 as [<- _]. reflexivity.
  - apply (Hback "foo" "bar"). apply lookup_singleton_eq.
Defined.

(** *** The OSS operations *)

Lemma OSS_Write_fold (l : list (string * string)) : forall opts,
  fold_left
    (fun (opts : list oss_Option) (kv : string * string) =>
       let '(key, val) := kv in
       let key := strings_ToLower key in
       (opts ++ [oss_Meta key val])%list)
    l opts
  = (opts ++ map (fun kv => oss_Meta (strings_ToLower (fst kv)) (snd kv)) l)%list.
Proof.
  induction l as [|[k v] l IH]; intros opts; cbn [fold_left map].
  - now rewrite app_nil_r.
  - rewrite IH, <- app_assoc. reflexivity.
Qed.

Lemma OSS_Write_closed_form (client : OSSClient.t) (key : string)
  (o : option WriteOptions) :
  let md := match o with Some w => Metadata w | None => ∅ end in
  let opts :=
    oss_WithContext
    :: map (fun kv => oss_Meta (strings_ToLower (fst kv)) (snd kv))
           (map_to_list md) in
  OSSClient.Write client key o
    = (oss_PutObject (OSSClient.bucket client) key opts,
       [call_oss_PutObject key opts]).
Proof.
  cbv zeta. unfold OSSClient.Write. rewrite bind_emit. cbn [fst snd ret app].
  destruct o as [w|]; [|rewrite map_to_list_empty; reflexivity].
  destruct (Z.ltb_spec 0 (Z.of_nat (size (Metadata w)))) as [Hpos|Hzero].
  - rewrite OSS_Write_fold. reflexivity.
  - assert (Metadata w = ∅) as -> by (apply map_size_empty_iff; lia).
    rewrite map_to_list_empty. reflexivity.
Qed.

(** X15: what the OSS [Write] sends, for metadata whose keys are ASCII.
    It asks for no size: with nil options, or a zero size, the upload is
    requested all the same, and its answer is returned as it is.  The
    options are the context followed by one metadata option per entry of
    the caller's mapping, each under the lower-cased key with the
    caller's value. *)
Theorem OSS_Write_options (client : OSSClient.t) (key : string)
  (o : option WriteOptions) :
  let md := match o with Some w => Metadata w | None => ∅ end in
  (forall k, is_Some (md !! k) -> is_ASCII k = true) ->
  exists metas,
    OSSClient.Write client key o
      = (oss_PutObject (OSSClient.bucket client) key (oss_WithContext :: metas),
         [call_oss_PutObject key (oss_WithContext :: metas)]) /\
    length metas = size md /\
    Forall (fun op => exists k v,
              op = oss_Meta k v /\ is_lower k /\ is_ASCII k = true) metas /\
    (forall k' v, In (oss_Meta k' v) metas <->
                  exists k, md !! k = Some v /\ strings_ToLower k = k').
Proof.
  intros md Hascii.
  exists (map (fun kv => oss_Meta (strings_ToLower (fst kv)) (snd kv))
              (map_to_list md)).
  split; [apply OSS_Write_closed_form|].
  split; [rewrite length_map; apply length_map_to_list|].
  split.
  - apply Forall_forall. intros op Hop.
    apply list_elem_of_In, in_map_iff in Hop as ([k v] & <- & Hin).
    exists (strings_ToLower k), v.
    split; [reflexivity|]. split; [apply strings_ToLower_is_lower|].
    rewrite strings_ToLower_ASCII. apply Hascii. exists v.
    now apply elem_of_map_to_list, list_elem_of_In.
  - intros k' v. rewrite in_map_iff. split.
    + intros ([k v0] & Heq & Hin). cbn in Heq. injection Heq as <- <-.
      exists k. split; [|reflexivity].
      now apply elem_of_map_to_list, list_elem_of_In.
    + intros (k & Hk & <-). exists (k, v). split; [reflexivity|].
      now apply list_elem_of_In, elem_of_map_to_list.
Qed.

Lemma OSS_Write_options_witness :
  let md : gmap string string := {["Foo" := "bar"]} in
  let client := oss_with (false, None) None two_pages in
  exists metas,
    OSSClient.Write client "k" (Some {| Size := 0; Metadata := md |})
      = (None, [call_oss_PutObject "k" (oss_WithContext :: metas)]) /\
    length metas = 1%nat /\
    In (oss_Meta "foo" "bar") metas.
Proof.
  intros md client.
  destruct (OSS_Write_options client "k" (Some {| Size := 0; Metadata := md |}))
    as (metas & Hw & Hlen & _ & Hin).
  { intros k [v H]. cbn [Metadata] in H. unfold md in H.
    apply lookup_singleton_Some in H as [<- _]. reflexivity. }
  exists metas. split; [exact Hw|].
  split; [rewrite Hlen; apply map_size_singleton|].
  apply Hin. exists "Foo". split; [apply lookup_singleton_eq | reflexivity].
Defined.

Lemma List_loop_failure fuel : forall client opts items token pages e,
  OSSClient.served fuel (OSSClient.bucket client) opts token
    = Some (pages, Some e) ->
  OSSClient.List_loop fuel client opts items token
    = (Some ([], Some e),
       (OSSClient.requests opts token pages
        ++ [call_oss_ListObjectsV2
              (opts ++ [oss_ContinuationToken
                          (match last pages with
                           | Some page => NextContinuationToken page
                           | None => token
                           end)])])%list).
Proof.
  induction fuel as [|fuel IH]; intros client opts items token pages e Hs;
    [discriminate|].
  cbn [OSSClient.served OSSClient.List_loop] in *. rewrite bind_emit.
  destruct (oss_ListObjectsV2 (OSSClient.bucket client)
              (opts ++ [oss_ContinuationToken token])) as [page|err].
  - destruct (IsTruncated page); cbn [negb]; [|discriminate].
    destruct (OSSClient.served fuel (OSSClient.bucket client) opts
                (NextContinuationToken page)) as [[pages' [e'|]]|] eqn:Er;
      try discriminate.
    injection Hs as <- <-.
    rewrite (IH client opts _ _ pages' e' Er). cbn [fst snd OSSClient.requests].
    f_equal. cbn [app]. do 4 f_equal.
    destruct pages' as [|p ps]; [reflexivity|].
    change (last (page :: p :: ps)) with (last (p :: ps)).
    now destruct (last (p :: ps)) eqn:El; [|apply last_None in El].
  - injection Hs as <- <-. reflexivity.
Qed.

(** X16: the OSS listing stops at the first failed page request.  When
    the provider serves some truncated pages and then fails, the call
    returns no items and that error, and its requests are those that
    fetched the pages followed by the one that failed, which carries the
    token of the last page; nothing is requested after the failure. *)
Theorem OSS_List_stops_at_failure (fuel : nat) (client : OSSClient.t)
  (prefix : string) (pages : list ListObjectsResultV2) (e : error) :
  OSSClient.served fuel (OSSClient.bucket client)
    (OSSClient.List_opts prefix) "" = Some (pages, Some e) ->
  OSSClient.List fuel client prefix
    = (Some ([], Some e),
       (OSSClient.requests (OSSClient.List_opts prefix) "" pages
        ++ [call_oss_ListObjectsV2
              (OSSClient.List_opts prefix
               ++ [oss_ContinuationToken (next_token pages)])])%list) /\
  length (snd (OSSClient.List fuel client prefix)) = S (length pages) /\
  oss_ListObjectsV2 (OSSClient.bucket client)
    (OSSClient.List_opts prefix ++ [oss_ContinuationToken (next_token pages)])
    = inr e.
Proof.
  intros Hs. unfold OSSClient.List.
  rewrite (List_loop_failure fuel client _ [] "" pages e Hs).
  split; [reflexivity|]. split.
  - cbn [snd]. rewrite length_app. cbn [length].
    assert (Hlen : forall opts ps token,
              length (OSSClient.requests opts token ps) = length ps).
    { intros opts ps. induction ps as [|p ps IH]; intros token;
        [reflexivity | cbn; now rewrite IH]. }
    rewrite Hlen. lia.
  - clear -Hs. unfold next_token.
    generalize dependent pages. generalize "" as token.
    induction fuel as [|fuel IH]; intros token pages Hs; [discriminate|].
    cbn [OSSClient.served] in Hs.
    destruct (oss_ListObjectsV2 (OSSClient.bucket client)
                (OSSClient.List_opts prefix ++ [oss_ContinuationToken token]))
      as [page|err] eqn:Eans.
    + destruct (IsTruncated page); [|discriminate].
      destruct (OSSClient.served fuel (OSSClient.bucket client)
                  (OSSClient.List_opts prefix) (NextContinuationToken page))
        as [[pages' [e'|]]|] eqn:Er; try discriminate.
      injection Hs as <- <-.
      specialize (IH _ _ Er).
      destruct pages' as [|p ps]; [exact IH|].
      change (last (page :: p :: ps)) with (last (p :: ps)).
      destruct (last (p :: ps)) eqn:El; [exact IH|].
      now apply last_None in El.
    + injection Hs as <- <-. exact Eans.
Qed.

Lemma OSS_List_stops_at_failure_witness :
  OSSClient.List 3 (oss_with (false, None) None broken_pages) "p/"
    = (Some ([], Some (errorString "connection reset")),
       [call_oss_ListObjectsV2
          [oss_WithContext; oss_Prefix "p/"; oss_MaxKeys 1000;
           oss_ContinuationToken ""];
        call_oss_ListObjectsV2
          [oss_WithContext; oss_Prefix "p/"; oss_MaxKeys 1000;
           oss_ContinuationToken "t1"]]).
Proof.
  apply (OSS_List_stops_at_failure 3
           (oss_with (false, None) None broken_pages) "p/"
           [{| Objects := [obj "p/a" 1; obj "p/b" 2];
               IsTruncated := true; NextContinuationToken := "t1" |}]
           (errorString "connection reset")).
  reflexivity.
Defined.

(** *** Streams and copies on S3 *)

(** X17: the resources of the S3 [Read].  When the object cannot be
    fetched, the error is returned as it is, the context is cancelled
    once and no watchdog is started.  When it can, the context is left
    alone and the stream is a fresh watchdog reader over the object:
    closing it returns nil, closes the object once and cancels the
    context once, and a consumer who reads nothing for one period has the
    context cancelled by the timer. *)
Theorem S3_Read_resources (objects : minio_Objects) (client : S3Client.t)
  (key : string) (iv : TimeoutReader.interval) :
  let answer := GetObject objects (S3Client.bucket client) key
                  (S3Client.sseckey client) in
  (forall err, answer = inr err ->
     S3Client_Read objects client key
       = (inr err,
          [io_logged call_WithCancel;
           call_GetObject (S3Client.bucket client) key (S3Client.sseckey client);
           call_cancel])) /\
  (forall object, answer = inl object ->
     exists r,
       S3Client_Read objects client key
         = (inl r,
            [io_logged call_WithCancel;
             call_GetObject (S3Client.bucket client) key (S3Client.sseckey client);
             io_logged (call_newTimeoutReader true)]) /\
       TimeoutReader.Close r
         = (None, TimeoutReader.mk (Some object) 0 true 1 1) /\
       (Transfer.idle iv ->
        TimeoutReader.run (TimeoutReader.Running, r) [iv]
          = (TimeoutReader.ReturnedCancel,
             TimeoutReader.mk (Some object) 0 false 1 0))).
Proof.
  intros answer.
  assert (Hsse : match S3Client.sseckey client with
                 | Some k => Some k
                 | None => None
                 end = S3Client.sseckey client)
    by (destruct (S3Client.sseckey client); reflexivity).
  unfold S3Client_Read. rewrite Hsse. fold answer. split.
  - intros err ->. reflexivity.
  - intros object ->. eexists. split; [reflexivity|]. split; [reflexivity|].
    intros Hidle.
    change (TimeoutReader.run ?s [iv]) with (TimeoutReader.run_interval s iv).
    rewrite (quiet_interval (TimeoutReader.newTimeoutReader (Some object))
               iv _ eq_refl eq_refl Hidle).
    rewrite (idle_no_bytes _ Hidle). reflexivity.
Qed.

Lemma S3_Read_resources_witness :
  let object : TimeoutReader.Closer := fun _ => Some (errorString "closed") in
  let stuck := {| TimeoutReader.before := [];
                  TimeoutReader.between := [] |} in
  S3Client_Read (objects_with (inr (errorString "denied")) None)
    (s3_with None None [] []) "k"
    = (inr (errorString "denied"),
       [io_logged call_WithCancel; call_GetObject "bucket" "k" None;
        call_cancel]) /\
  exists r,
    fst (S3Client_Read (objects_with (inl object) None)
           (s3_with None None [] []) "k") = inl r /\
    fst (TimeoutReader.run (TimeoutReader.Running, r) [stuck])
      = TimeoutReader.ReturnedCancel.
Proof.
  intros object stuck. split.
  - apply (S3_Read_resources (objects_with (inr (errorString "denied")) None)
             (s3_with None None [] []) "k" stuck).
    reflexivity.
  - destruct (S3_Read_resources (objects_with (inl object) None)
                (s3_with None None [] []) "k" stuck) as [_ Hok].
    destruct (Hok object eq_refl) as (r & Hr & _ & Hstall).
    exists r. split; [now rewrite Hr|].
    rewrite Hstall; [reflexivity | constructor].
Defined.

(** X18: where the requests of the S3 adapter go.  Every request of
    [Write], [Exist], [Info], [Read] and [Copy] names the client's bucket
    and carries the client's encryption key (or none when the client has
    none), a copy on both its source and its destination; [Remove] and
    [List] name the client's bucket. *)
Theorem S3_requests_addressed (objects : minio_Objects) (client : S3Client.t)
  (key src dst prefix : string) (o : option WriteOptions)
  (keys : list string) :
  let ok := addressed (S3Client.bucket client) (S3Client.sseckey client) in
  Forall ok (map io_logged (snd (S3Client.Write client key o))) /\
  Forall ok (map io_logged (snd (S3Client.Exist client key))) /\
  Forall ok (map io_logged (snd (S3Client.Info client key))) /\
  Forall ok (map io_logged (snd (S3Client.Remove client keys))) /\
  Forall ok (map io_logged (snd (S3Client.List client prefix))) /\
  Forall ok (snd (S3Client_Read objects client key)) /\
  Forall ok (snd (S3Client_Copy objects client src dst)).
Proof.
  intros ok. unfold ok.
  assert (Hsse : match S3Client.sseckey client with
                 | Some k => Some k
                 | None => None
                 end = S3Client.sseckey client)
    by (destruct (S3Client.sseckey client); reflexivity).
  split; [|split; [|split; [|split; [|split; [|split]]]]].
  - destruct o as [w|]; [|constructor].
    destruct (Z.eq_dec (Size w) 0) as [Hz|Hz].
    + unfold S3Client.Write. rewrite Hz. constructor.
    + rewrite (S3_Write_sends client key w Hz). cbn.
      repeat constructor.
  - unfold S3Client.Exist. rewrite bind_emit.
    destruct (StatObject _ _ _ _) as [stat err].
    destruct (_ =? _); [|destruct err]; cbn; repeat constructor.
  - unfold S3Client.Info. rewrite bind_emit.
    destruct (StatObject _ _ _ _) as [stat [e|]]; cbn; repeat constructor.
  - unfold S3Client.Remove. destruct (length keys =? 0)%nat; cbn;
      repeat constructor.
  - unfold S3Client.List. rewrite bind_emit.
    destruct (fold_left _ _ _) as [items [e|]]; cbn; repeat constructor.
  - unfold S3Client_Read. rewrite Hsse.
    destruct (GetObject _ _ _ _); cbn; repeat constructor.
  - unfold S3Client_Copy.
    destruct (S3Client.sseckey client); cbn; repeat constructor.
Qed.

(** *** The OSS constructor *)

Lemma NewOSSClient_cases (url_String : url_URL -> string)
  (oss_New : string -> string -> string -> oss_Client + error)
  (config : OSSConfig.t) :
  let uri :=
    {| Scheme := if stringToBool (OSSConfig.HTTPS config) true
                 then "https" else "http";
       Host := if String.eqb (OSSConfig.Endpoint config) ""
                  && negb (String.eqb (OSSConfig.Region config) "")
               then "oss-" ++ OSSConfig.Region config ++ ".aliyuncs.com"
               else OSSConfig.Endpoint config |} in
  let new := call_oss_New (url_String uri) (OSSConfig.KeyID config)
               (OSSConfig.Key config) in
  NewOSSClient url_String oss_New config =
    match oss_New (url_String uri) (OSSConfig.KeyID config)
            (OSSConfig.Key config) with
    | inr err => (inr err, [new])
    | inl backend =>
        match backend (OSSConfig.Bucket config) with
        | inr err => (inr err, [new; call_oss_Bucket (OSSConfig.Bucket config)])
        | inl bucket =>
            (inl (OSSClient.mk bucket),
             [new; call_oss_Bucket (OSSConfig.Bucket config)])
        end
    end.
Proof.
  cbv zeta. unfold NewOSSClient.
  destruct (stringToBool (OSSConfig.HTTPS config) true); reflexivity.
Qed.

(** X19: the address that [NewOSSClient] connects to.  The first request
    is [oss.New] on the URL built from a scheme and a host, with the
    configured key pair.  The scheme is "https" unless HTTPS is literally
    "false", and then "http".  The host is the given endpoint; a blank
    endpoint becomes "oss-<region>.aliyuncs.com" when a region is given,
    and stays blank when the region is blank too. *)
Theorem NewOSSClient_address (url_String : url_URL -> string)
  (oss_New : string -> string -> string -> oss_Client + error)
  (config : OSSConfig.t) :
  exists uri,
    head (snd (NewOSSClient url_String oss_New config))
      = Some (call_oss_New (url_String uri) (OSSConfig.KeyID config)
                (OSSConfig.Key config)) /\
    (OSSConfig.HTTPS config <> "false" -> Scheme uri = "https") /\
    (OSSConfig.HTTPS config = "false" -> Scheme uri = "http") /\
    (OSSConfig.Endpoint config <> "" -> Host uri = OSSConfig.Endpoint config) /\
    (OSSConfig.Endpoint config = "" -> OSSConfig.Region config <> "" ->
     Host uri = "oss-" ++ OSSConfig.Region config ++ ".aliyuncs.com") /\
    (OSSConfig.Endpoint config = "" -> OSSConfig.Region config = "" ->
     Host uri = "").
Proof.
  rewrite NewOSSClient_cases. cbv zeta.
  eexists. split.
  { destruct (oss_New _ _ _) as [backend|err]; [|reflexivity].
    destruct (backend _); reflexivity. }
  cbn [Scheme Host].
  pose proof (stringToBool_enabled (OSSConfig.HTTPS config)) as Hh.
  split.
  { intros H. apply Hh in H. now rewrite H. }
  split.
  { intros H. destruct (stringToBool (OSSConfig.HTTPS config) true);
      [|reflexivity].
    exfalso. now apply (proj1 Hh). }
  destruct (String.eqb_spec (OSSConfig.Endpoint config) "") as [He|He];
    destruct (String.eqb_spec (OSSConfig.Region config) "") as [Hr|Hr];
    cbn [andb negb]; repeat split; intros; congruence.
Qed.

Lemma NewOSSClient_address_witness :
  let to_string uri := Scheme uri ++ "://" ++ Host uri in
  let new (_ _ _ : string) : oss_Client + error := inr (errorString "down") in
  let config := OSSConfig.mk "" "cn-hangzhou" "false" "b" "id" "secret" in
  exists uri,
    head (snd (NewOSSClient to_string new config))
      = Some (call_oss_New (to_string uri) "id" "secret") /\
    Scheme uri = "http" /\ Host uri = "oss-cn-hangzhou.aliyuncs.com".
Proof.
  intros to_string new config.
  destruct (NewOSSClient_address to_string new config)
    as (uri & Hhead & _ & Hhttp & _ & Hhost & _).
  exists uri. split; [exact Hhead|].
  split; [apply Hhttp; reflexivity | apply Hhost; [reflexivity | discriminate]].
Defined.

(** X20: the results of [NewOSSClient].  An error is either the error of
    [oss.New], and then the bucket was never requested, or the error of
    the bucket request after a successful [oss.New]; in both cases it is
    returned as it is.  A client is returned only when both succeeded,
    and it holds the handle of the configured bucket. *)
Theorem NewOSSClient_results (url_String : url_URL -> string)
  (oss_New : string -> string -> string -> oss_Client + error)
  (config : OSSConfig.t) :
  let res := NewOSSClient url_String oss_New config in
  let id := OSSConfig.KeyID config in
  let secret := OSSConfig.Key config in
  let named := call_oss_Bucket (OSSConfig.Bucket config) in
  (forall err, fst res = inr err ->
   exists endpoint,
     (oss_New endpoint id secret = inr err /\
      snd res = [call_oss_New endpoint id secret]) \/
     (exists backend,
        oss_New endpoint id secret = inl backend /\
        backend (OSSConfig.Bucket config) = inr err /\
        snd res = [call_oss_New endpoint id secret; named])) /\
  (forall client, fst res = inl client ->
   exists endpoint backend,
     oss_New endpoint id secret = inl backend /\
     backend (OSSConfig.Bucket config) = inl (OSSClient.bucket client) /\
     snd res = [call_oss_New endpoint id secret; named]).
Proof.
  cbv zeta. rewrite NewOSSClient_cases. cbv zeta.
  destruct (oss_New _ _ _) as [backend|err0] eqn:Enew.
  - destruct (backend (OSSConfig.Bucket config)) as [bucket|err1] eqn:Eb;
      cbn [fst snd].
    + split; [discriminate|]. intros client H. injection H as <-.
      eexists _, backend. split; [exact Enew|]. split; [exact Eb | reflexivity].
    + split; [|discriminate]. intros err H. injection H as <-.
      eexists. right. exists backend.
      split; [exact Enew|]. split; [exact Eb | reflexivity].
  - cbn [fst snd]. split; [|discriminate].
    intros err H. injection H as <-.
    eexists. left. split; [exact Enew | reflexivity].
Qed.

Lemma NewOSSClient_results_witness :
  let to_string uri := Scheme uri ++ "://" ++ Host uri in
  let no_bucket : oss_Client := fun _ => inr (errorString "NoSuchBucket") in
  let new (_ _ _ : string) : oss_Client + error := inl no_bucket in
  let config := OSSConfig.mk "h" "" "" "b" "id" "secret" in
  fst (NewOSSClient to_string new config) = inr (errorString "NoSuchBucket") /\
  exists endpoint,
    snd (NewOSSClient to_string new config)
      = [call_oss_New endpoint "id" "secret"; call_oss_Bucket "b"].
Proof.
  intros to_string no_bucket new config.
  split; [reflexivity|].
  destruct (NewOSSClient_results to_string new config) as [Herr _].
  destruct (Herr (errorString "NoSuchBucket") eq_refl)
    as (endpoint & [[Hnew _] | (backend & _ & _ & Hlog)]).
  - discriminate.
  - exists endpoint. exact Hlog.
Defined.

(** *** The OSS [Info] *)

Section OSSInfoFacts.
Variable canon : string -> string.
Variable header : http_Header.

(** Every entry collected by the loop comes from a header with the
    metadata prefix. *)
Lemma Info_fold_from :
  forall k v,
    map_fold (Info_step canon header) ∅ header !! k = Some v ->
    exists hk vals,
      header !! hk = Some vals /\
      strings_HasPrefix hk "X-Oss-Meta-" = true /\
      k = meta_key hk /\ v = header_Get canon header hk.
Proof.
  apply (map_fold_weak_ind
           (fun (r : gmap string string) (m : http_Header) =>
              forall k v, r !! k = Some v ->
              exists hk vals,
                m !! hk = Some vals /\
                strings_HasPrefix hk "X-Oss-Meta-" = true /\
                k = meta_key hk /\ v = header_Get canon header hk)).
  - intros k v H. rewrite lookup_empty in H. discriminate.
  - intros i x m r Hi IH k v H. unfold Info_step in H.
    assert (Hold : forall k v, r !! k = Some v ->
              exists hk vals,
                <[i:=x]> m !! hk = Some vals /\
                strings_HasPrefix hk "X-Oss-Meta-" = true /\
                k = meta_key hk /\ v = header_Get canon header hk).
    { intros k1 v1 H1. destruct (IH k1 v1 H1) as (hk & vals & Hm & Hrest).
      exists hk, vals. split; [|exact Hrest].
      rewrite lookup_insert_ne; [exact Hm | intros ->; congruence]. }
    destruct (strings_HasPrefix i "X-Oss-Meta-") eqn:Ep; cbn [negb] in H;
      [|now apply Hold].
    destruct (decide (meta_key i = k)) as [E|E].
    + unfold meta_key in E. rewrite E, lookup_insert_eq in H.
      injection H as <-. exists i, x.
      split; [apply lookup_insert_eq|]. split; [exact Ep|].
      split; [now rewrite <- E | reflexivity].
    + unfold meta_key in E. rewrite lookup_insert_ne in H by exact E.
      now apply Hold.
Qed.

(** When no two metadata headers give the same key, every one of them is
    collected. *)
Lemma Info_fold_lookup :
  (forall k1 k2,
     is_Some (header !! k1) -> is_Some (header !! k2) ->
     strings_HasPrefix k1 "X-Oss-Meta-" = true ->
     strings_HasPrefix k2 "X-Oss-Meta-" = true ->
     meta_key k1 = meta_key k2 -> k1 = k2) ->
  forall hk vals,
    header !! hk = Some vals ->
    strings_HasPrefix hk "X-Oss-Meta-" = true ->
    map_fold (Info_step canon header) ∅ header !! meta_key hk
      = Some (header_Get canon header hk).
Proof.
  apply (map_fold_weak_ind
           (fun (r : gmap string string) (m : http_Header) =>
              (forall k1 k2,
                 is_Some (m !! k1) -> is_Some (m !! k2) ->
                 strings_HasPrefix k1 "X-Oss-Meta-" = true ->
                 strings_HasPrefix k2 "X-Oss-Meta-" = true ->
                 meta_key k1 = meta_key k2 -> k1 = k2) ->
              forall hk vals,
                m !! hk = Some vals ->
                strings_HasPrefix hk "X-Oss-Meta-" = true ->
                r !! meta_key hk = Some (header_Get canon header hk))).
  - intros _ hk vals H. rewrite lookup_empty in H. discriminate.
  - intros i x m r Hi IH Hinj hk vals H Hp.
    assert (Hsub : forall k1 k2,
              is_Some (m !! k1) -> is_Some (m !! k2) ->
              strings_HasPrefix k1 "X-Oss-Meta-" = true ->
              strings_HasPrefix k2 "X-Oss-Meta-" = true ->
              meta_key k1 = meta_key k2 -> k1 = k2).
    { intros k1 k2 [v1 H1] [v2 H2]. apply Hinj.
      - destruct (decide (i = k1)) as [->|N]; [congruence|].
        rewrite lookup_insert_ne by exact N. eauto.
      - destruct (decide (i = k2)) as [->|N]; [congruence|].
        rewrite lookup_insert_ne by exact N. eauto. }
    unfold Info_step.
    destruct (decide (i = hk)) as [->|N].
    + rewrite Hp. cbn [negb]. apply lookup_insert_eq.
    + rewrite lookup_insert_ne in H by exact N.
      destruct (strings_HasPrefix i "X-Oss-Meta-") eqn:Ep; cbn [negb].
      * rewrite lookup_insert_ne; [now apply (IH Hsub hk vals)|].
        fold (meta_key i). intros E. apply N, Hinj; auto.
        -- rewrite lookup_insert_eq. eauto.
        -- rewrite lookup_insert_ne by exact N. eauto.
      * now apply (IH Hsub hk vals).
Qed.

End OSSInfoFacts.

(** X21: the errors of the OSS [Info], in the order of the code: the
    error of the metadata request, else the error of parsing the
    Content-Length header as a decimal 64-bit integer, else the error of
    parsing the Last-Modified header in the HTTP time format; each is
    returned as it is, with no info.  Otherwise the info holds the parsed
    size and time.  The call issues the single metadata request in every
    case. *)
Theorem OSS_Info_errors (canon : string -> string)
  (parse_int : string -> Z -> Z -> Z + error)
  (parse_time : string -> string -> Z + error)
  (get_meta : string -> http_Header + error) (key : string) :
  let res := OSSClient_Info canon parse_int parse_time get_meta key in
  let size_of h := parse_int (header_Get canon h "Content-Length") 10 64 in
  let time_of h :=
    parse_time "Mon, 02 Jan 2006 15:04:05 GMT"
      (header_Get canon h "Last-Modified") in
  snd res = [io_logged call_WithTimeout; call_oss_GetObjectDetailedMeta key] /\
  (forall err, get_meta key = inr err -> fst res = (None, Some err)) /\
  (forall h err, get_meta key = inl h -> size_of h = inr err ->
     fst res = (None, Some err)) /\
  (forall h size err, get_meta key = inl h -> size_of h = inl size ->
     time_of h = inr err -> fst res = (None, Some err)) /\
  (forall h size modified, get_meta key = inl h -> size_of h = inl size ->
     time_of h = inl modified ->
     exists info,
       fst res = (Some info, None) /\
       info_Size info = size /\ info_LastModified info = modified).
Proof.
  cbv zeta. unfold OSSClient_Info, http_TimeFormat.
  split.
  { destruct (get_meta key) as [h|e]; [|reflexivity].
    destruct (parse_int _ _ _); [|reflexivity].
    destruct (parse_time _ _); reflexivity. }
  split; [intros err ->; reflexivity|].
  split; [intros h err -> ->; reflexivity|].
  split; [intros h size err -> -> ->; reflexivity|].
  intros h size modified -> -> ->. eexists. split; [reflexivity|].
  split; reflexivity.
Qed.

Lemma OSS_Info_errors_witness :
  let canon (s : string) := s in
  let parse_int (s : string) (_ _ : Z) : Z + error :=
    if String.eqb s "4" then inl 4 else inr (errorString "invalid syntax") in
  let parse_time (_ s : string) : Z + error :=
    if String.eqb s "" then inr (errorString "cannot parse") else inl 0 in
  let sized : http_Header := {["Content-Length" := ["4"]]} in
  fst (OSSClient_Info canon parse_int parse_time
         (fun _ => inr (errorString "NoSuchKey")) "k")
    = (None, Some (errorString "NoSuchKey")) /\
  fst (OSSClient_Info canon parse_int parse_time (fun _ => inl ∅) "k")
    = (None, Some (errorString "invalid syntax")) /\
  fst (OSSClient_Info canon parse_int parse_time (fun _ => inl sized) "k")
    = (None, Some (errorString "cannot parse")).
Proof.
  intros canon parse_int parse_time sized.
  split; [|split].
  - apply (OSS_Info_errors canon parse_int parse_time
             (fun _ => inr (errorString "NoSuchKey")) "k"). reflexivity.
  - destruct (OSS_Info_errors canon parse_int parse_time (fun _ => inl ∅) "k")
      as (_ & _ & Hsize & _).
    apply (Hsize ∅); reflexivity.
  - destruct (OSS_Info_errors canon parse_int parse_time
                (fun _ => inl sized) "k") as (_ & _ & _ & Htime & _).
    apply (Htime sized 4); reflexivity.
Defined.

(** X22: the metadata that the OSS [Info] returns, for a header whose
    keys with the prefix "X-Oss-Meta-" are ASCII.  Every returned key is
    lower-case and is such a header key with the prefix removed and the
    rest lower-cased; its value is what the header gives for that key;
    headers without the prefix, such as Content-Length, leave nothing.
    When no two such headers give the same key, each of them is
    returned. *)
Theorem OSS_Info_metadata (canon : string -> string)
  (parse_int : string -> Z -> Z -> Z + error)
  (parse_time : string -> string -> Z + error)
  (get_meta : string -> http_Header + error) (key : string)
  (h : http_Header) (info : ObjectInfo) :
  get_meta key = inl h ->
  fst (OSSClient_Info canon parse_int parse_time get_meta key)
    = (Some info, None) ->
  (forall hk, is_Some (h !! hk) ->
     strings_HasPrefix hk "X-Oss-Meta-" = true -> is_ASCII hk = true) ->
  (forall k v, info_Metadata info !! k = Some v ->
     is_lower k /\
     exists hk vals,
       h !! hk = Some vals /\
       strings_HasPrefix hk "X-Oss-Meta-" = true /\
       k = meta_key hk /\ v = header_Get canon h hk) /\
  ((forall k1 k2,
      is_Some (h !! k1) -> is_Some (h !! k2) ->
      strings_HasPrefix k1 "X-Oss-Meta-" = true ->
      strings_HasPrefix k2 "X-Oss-Meta-" = true ->
      meta_key k1 = meta_key k2 -> k1 = k2) ->
   forall hk vals,
     h !! hk = Some vals ->
     strings_HasPrefix hk "X-Oss-Meta-" = true ->
     info_Metadata info !! meta_key hk = Some (header_Get canon h hk)).
Proof.
  intros Hget. unfold OSSClient_Info. rewrite Hget.
  destruct (parse_int _ _ _) as [size|e]; [|discriminate].
  destruct (parse_time _ _) as [modified|e]; [|discriminate].
  cbn [fst]. intros H _. injection H as <-. cbn [info_Metadata].
  split.
  - intros k v Hk.
    destruct (Info_fold_from canon h k v Hk) as (hk & vals & Hh & Hp & -> & ->).
    split; [apply strings_ToLower_is_lower | eauto 6].
  - apply Info_fold_lookup.
Qed.

Lemma OSS_Info_metadata_witness :
  let canon (s : string) := s in
  let parse_int (s : string) (_ _ : Z) : Z + error := inl 4 in
  let parse_time (_ s : string) : Z + error := inl 0 in
  let h : http_Header :=
    {["X-Oss-Meta-Foo" := ["bar"]; "Content-Length" := ["4"]]} in
  exists info,
    fst (OSSClient_Info canon parse_int parse_time (fun _ => inl h) "k")
      = (Some info, None) /\
    info_Metadata info !! "foo" = Some "bar" /\
    info_Metadata info !! "content-length" = None.
Proof.
  intros canon parse_int parse_time h.
  eexists. split; [reflexivity|].
  destruct (OSS_Info_metadata canon parse_int parse_time (fun _ => inl h) "k"
              h _ eq_refl eq_refl) as [Hfrom Hall].
  { intros hk [vals H] _. unfold h in H.
    apply lookup_insert_Some in H as [[<- _]|[_ H]]; [reflexivity|].
    apply lookup_singleton_Some in H as [<- _]. reflexivity. }
  split.
  - apply (Hall ltac:(
      intros k1 k2 [v1 H1] [v2 H2] P1 P2 _; unfold h in H1, H2;
      apply lookup_insert_Some in H1 as [[<- _]|[_ H1]];
      apply lookup_insert_Some in H2 as [[<- _]|[_ H2]];
      try reflexivity;
      try (apply lookup_singleton_Some in H1 as [<- _]; discriminate);
      try (apply lookup_singleton_Some in H2 as [<- _]; discriminate))
      "X-Oss-Meta-Foo" ["bar"]); reflexivity.
  - destruct (info_Metadata _ !! "content-length") as [v|] eqn:E;
      [|reflexivity].
    destruct (Hfrom _ _ E) as (_ & hk & vals & Hh & Hp & Hk & _).
    unfold h in Hh. apply lookup_insert_Some in Hh as [[<- _]|[_ Hh]];
      [discriminate|].
    apply lookup_singleton_Some in Hh as [<- _]. discriminate.
Defined.
